(** * Pixel tracker: ingestion endpoint and client delivery engine

    A shallow embedding of the analytics pixel tracker:
    - [Js]: the fragment of JavaScript values the code manipulates
      (parsed JSON bodies, truthiness, property reads, [||]);
    - [Server]: the [POST /api/events] handler of [src/server.js];
    - [Pixel]: the browser-side queue, flush, retry and recovery logic of
      [src/public/pixel.js] and the userscript variants of the tracker.

    Definitions come first, the theorems about them follow. *)

From Stdlib Require Import ZArith List Bool Ascii String Lia.
From stdpp Require Import gmap strings list fin_maps.

Set Warnings "-register-all".
Local Open Scope Z_scope.
Local Open Scope string_scope.
Local Open Scope list_scope.

(* ===================================================================== *)
(** * JavaScript values *)
(* ===================================================================== *)

Module Js.

(** A value produced by [JSON.parse]. Numbers are kept as integers: the
    code only ever tests a number for being zero. An object is the list of
    its own properties, each name occurring once. *)
Inductive JValue : Type :=
| JNull
| JBool (b : bool)
| JNum (n : Z)
| JStr (s : string)
| JArr (items : list JValue)
| JObj (props : list (string * JValue)).

(** A JavaScript value is a JSON value or [undefined] ([None]). *)
Definition Value : Type := option JValue.

Definition undefined : Value := None.

(** [ToBoolean]: [null], [false], [0] and [""] are falsy, every array and
    object is truthy. *)
Definition truthy_json (v : JValue) : bool :=
  match v with
  | JNull => false
  | JBool b => b
  | JNum n => negb (n =? 0)%Z
  | JStr s => negb (String.eqb s "")
  | JArr _ => true
  | JObj _ => true
  end.

Definition truthy (v : Value) : bool :=
  match v with
  | None => false
  | Some j => truthy_json j
  end.

(** [a || b] *)
Definition or_else (a b : Value) : Value :=
  if truthy a then a else b.

Fixpoint assoc (k : string) (props : list (string * JValue)) : Value :=
  match props with
  | [] => None
  | (k', v) :: rest => if String.eqb k k' then Some v else assoc k rest
  end.

(** [v.k] for a property name that no prototype defines: the own property
    of an object, [undefined] on arrays and primitives. ([null] has no
    properties at all: reading one throws, see [destructure].) *)
Definition prop (v : JValue) (k : string) : Value :=
  match v with
  | JObj props => assoc k props
  | _ => undefined
  end.

(** [v === 'lit'] *)
Definition strict_eq_str (v : Value) (lit : string) : bool :=
  match v with
  | Some (JStr s) => String.eqb s lit
  | _ => false
  end.

End Js.

Import Js.

(* ===================================================================== *)
(** * Result of a computation that may throw *)
(* ===================================================================== *)

Inductive Exn (A : Type) : Type :=
| Ok (a : A)
| Throw.
Arguments Ok {A} a.
Arguments Throw {A}.

(* ===================================================================== *)
(** * The ingestion service (src/server.js) *)
(* ===================================================================== *)

(** What the PostgreSQL driver and the column types do to a query
    parameter. Neither the driver nor [schema.sql] is part of the sources,
    so they are parameters of the model: [sql_text] is the text a
    parameter is stored as in a [session_id] column, [sql_time] the
    instant a parameter denotes in a timestamp column ([None] is SQL
    [NULL]).

    Modelled from the spec: the database raises an error on a statement
    whose parameters do not fit the columns. The handler's queries tell
    that [timestamp] is a timestamp column ([end_time - start_time]) and
    [metadata] a JSON column ([metadata->>'target']), so a timestamp that
    cannot be read as one or a metadata text that is not JSON is refused;
    what else is refused (a null timestamp, a text too long for its
    column) depends on [schema.sql]. [sql_refuses] is that verdict for
    the six parameters of the [INSERT INTO events] of an entry, in the
    order of the statement; it stands for both statements run for the
    entry, the upsert taking its [session_id], [timestamp] and page view
    flag from the same entry. The [User-Agent] header is stored as text
    and is taken not to cause an error. *)
Class SqlCodec : Type := {
  sql_text : Value -> string;
  sql_time : Value -> option Z;
  sql_refuses : Value -> Value -> Value -> Value -> Value -> Value -> bool
}.

Module Server.

(** A row of [events]: the six parameters of the [INSERT], as the
    handler hands them to the driver. *)
Record EventRow : Type := {
  row_session_id : Value;
  row_event_type : Value;
  row_url : Value;
  row_referrer : Value;
  row_timestamp : Value;
  row_metadata : Value
}.

(** Modelled from the spec: the [sessions] table of [schema.sql], which is
    not among the sources. Its columns are those the handler's upsert
    names; [session_id] is the key of the table. *)
Record Session : Type := {
  start_time : option Z;
  end_time : option Z;
  page_views : Z;
  user_agent : option string
}.

Record DB : Type := {
  events : list EventRow;
  sessions : gmap string Session
}.

Definition empty_db : DB := {| events := []; sessions := ∅ |}.

Inductive Payload : Type :=
| Error (msg : string)
| Ingested (message : string) (count : nat).

Record Response : Type := {
  status : nat;
  payload : Payload
}.

Definition respond (code : nat) (p : Payload) : Response :=
  {| status := code; payload := p |}.

(** [COALESCE(a, b)] *)
Definition coalesce {A : Type} (a b : option A) : option A :=
  match a with
  | Some _ => a
  | None => b
  end.

(** [INSERT INTO events (...) VALUES ($1, ..., $6)] *)
Definition insert_event (r : EventRow) (db : DB) : DB :=
  {| events := events db ++ [r]; sessions := sessions db |}.

(** [INSERT INTO sessions (session_id, start_time, page_views, user_agent)
     VALUES ($1, $2, $3, $4)
     ON CONFLICT (session_id) DO UPDATE SET
       end_time = EXCLUDED.start_time,
       page_views = sessions.page_views + EXCLUDED.page_views,
       user_agent = COALESCE(sessions.user_agent, EXCLUDED.user_agent)] *)
Definition upsert_session (sid : string) (ts : option Z) (pv : Z)
    (ua : option string) (db : DB) : DB :=
  let row :=
    match sessions db !! sid with
    | None =>
        {| start_time := ts; end_time := None;
           page_views := pv; user_agent := ua |}
    | Some s =>
        {| start_time := start_time s; end_time := ts;
           page_views := (page_views s + pv)%Z;
           user_agent := coalesce (user_agent s) ua |}
    end in
  {| events := events db; sessions := <[sid := row]> (sessions db) |}.

Section Handler.
Context {C : SqlCodec}.

(** The fields the loop body destructures out of one array entry. *)
Record Fields : Type := {
  f_session_id : Value;
  f_event_type : Value;
  f_url : Value;
  f_referrer : Value;
  f_timestamp : Value;
  f_metadata : Value
}.

(** [const { session_id, event_type, url, referrer, timestamp, metadata }
     = event;] Destructuring [null] throws a [TypeError]; every other
    value is coerced to an object and read property by property. *)
Definition destructure (event : JValue) : Exn Fields :=
  match event with
  | JNull => Throw
  | _ =>
      Ok {| f_session_id := prop event "session_id";
            f_event_type := prop event "event_type";
            f_url := prop event "url";
            f_referrer := prop event "referrer";
            f_timestamp := prop event "timestamp";
            f_metadata := prop event "metadata" |}
  end.

(** [!session_id || !event_type || !url] *)
Definition missing_required (f : Fields) : bool :=
  negb (truthy (f_session_id f)) || negb (truthy (f_event_type f))
  || negb (truthy (f_url f)).

(** The two queries run for an entry that passed validation, when the
    database accepts them. *)
Definition store_event (ua : option string) (f : Fields) (tx : DB) : DB :=
  let tx1 :=
    insert_event
      {| row_session_id := f_session_id f;
         row_event_type := f_event_type f;
         row_url := f_url f;
         row_referrer := or_else (f_referrer f) (Some JNull);
         row_timestamp := f_timestamp f;
         row_metadata := or_else (f_metadata f) (Some (JObj [])) |} tx in
  let isPageview :=
    if strict_eq_str (f_event_type f) "pageview" then 1%Z else 0%Z in
  upsert_session (sql_text (f_session_id f)) (sql_time (f_timestamp f))
    isPageview ua tx1.

(** [await client.query(...)] rejects when the database refuses the
    statement: whether it does for the statements of an entry. *)
Definition refused (f : Fields) : bool :=
  sql_refuses (f_session_id f) (f_event_type f) (f_url f)
    (or_else (f_referrer f) (Some JNull)) (f_timestamp f)
    (or_else (f_metadata f) (Some (JObj []))).

(** How control leaves the [for (const event of events)] loop: at its
    end, through the [return] of the validation branch, or by an
    exception (the destructuring of [null], a query that is refused). *)
Inductive LoopExit : Type :=
| Completed
| Rejected
| Raised.

(** The loop, run on the working copy [tx] of the transaction. The copy
    comes back with the writes of the entries stored so far, whichever
    way the loop ends; after an exception it is only rolled back. *)
Fixpoint ingest_loop (ua : option string) (evs : list JValue) (tx : DB)
    : LoopExit * DB :=
  match evs with
  | [] => (Completed, tx)
  | event :: rest =>
      match destructure event with
      | Throw => (Raised, tx)
      | Ok f =>
          if missing_required f then (Rejected, tx)
          else if refused f then (Raised, tx)
          else ingest_loop ua rest (store_event ua f tx)
      end
  end.

(** [BEGIN], [COMMIT] and [ROLLBACK]: a transaction works on a copy of the
    committed database [db]; committing installs the copy, rolling back
    discards it. *)
Definition begin (db : DB) : DB := db.
Definition commit (db tx : DB) : DB := tx.
Definition rollback (db tx : DB) : DB := db.

(** [app.post('/api/events', ...)]: the response and the committed
    database. [body] is [req.body], [ua] is [req.headers['user-agent']].
    A query fails when the database refuses its parameters; the
    connection itself does not fail ([pool.connect], [BEGIN], [COMMIT]
    and [ROLLBACK] succeed). *)
Definition post_events (db : DB) (body : JValue) (ua : option string)
    : Response * DB :=
  match body with
  | JArr evs =>
      if (length evs =? 0)%nat then
        (respond 400 (Error "Empty events array"), db)
      else if (100 <? length evs)%nat then
        (respond 400 (Error "Too many events in batch (max 100)"), db)
      else
        match ingest_loop ua evs (begin db) with
        | (Completed, tx) =>
            (respond 200 (Ingested "Events ingested successfully" (length evs)),
             commit db tx)
        | (Rejected, tx) =>
            (respond 400
               (Error "Missing required fields: session_id, event_type, url"),
             rollback db tx)
        | (Raised, tx) =>
            (respond 500 (Error "Internal server error"), rollback db tx)
        end
  | _ => (respond 400 (Error "Invalid payload, expected array of events"), db)
  end.

End Handler.

End Server.

(* ===================================================================== *)
(** * The tracker (src/public/pixel.js and the userscript variants) *)
(* ===================================================================== *)

Module Pixel.

(** [CONFIG] *)
Definition batchInterval : nat := 2000.
Definition maxQueueSize : nat := 50.
Definition maxRetries : nat := 3.
Definition retryDelay : nat := 1000.
Definition sessionTimeout : Z := 30 * 60 * 1000.

(** The object literal [track] builds. *)
Record Event : Type := {
  session_id : string;
  event_type : string;
  url : string;
  referrer : option string;
  timestamp : string;
  metadata : JValue
}.

(** What [track] reads from the page: [window.location.href],
    [document.referrer] and [new Date().toISOString()]. *)
Record Page : Type := {
  href : string;
  doc_referrer : string;
  iso_now : string
}.

(** The body of a request, [JSON.stringify(eventsToSend)], as the server
    parses it. *)
Definition event_json (e : Event) : JValue :=
  JObj [("session_id", JStr (session_id e));
        ("event_type", JStr (event_type e));
        ("url", JStr (url e));
        ("referrer", match referrer e with Some r => JStr r | None => JNull end);
        ("timestamp", JStr (timestamp e));
        ("metadata", metadata e)].

Definition batch_json (evs : list Event) : JValue :=
  JArr (map event_json evs).

(** A [fetch] started by [flush] and not yet settled: the snapshot and the
    [synchronous] flag its continuation closes over. *)
Record Request : Type := {
  eventsToSend : list Event;
  synchronous : bool
}.

(** How the [try] block of [flush] ends: normally, or by an exception
    (the [fetch] rejected, or the response was not [ok]). *)
Inductive Outcome : Type :=
| Delivered
| Failed.

(** The two callbacks the tracker hands to [setTimeout]:
    [() => { this.isFlushing = false; this.flush(); }] and
    [() => this.flush()]. *)
Inductive Callback : Type :=
| RetryFlush
| DelayedFlush.

Record Timer : Type := {
  delay : nat;
  callback : Callback
}.

(** The item ['pixel_failed_events'] of a key/value store; [None] when the
    key is absent. The tracker is the only writer of the item and always
    writes a JSON array. *)
Definition FailedItem : Type := option (list Event).

(** A tracker instance and the part of the browser it acts on.
    [localStorage] and [gmStorage] are [None] when the API is not defined
    in the page ([typeof localStorage === 'undefined'], no [GM_getValue] /
    [GM_setValue] grant). *)
Record World : Type := {
  queue : list Event;
  sessionId : string;
  retryCount : nat;
  isFlushing : bool;
  localStorage : option FailedItem;
  gmStorage : option FailedItem;
  timers : list Timer;
  inflight : list Request
}.

Definition set_queue (q : list Event) (w : World) : World :=
  {| queue := q; sessionId := sessionId w; retryCount := retryCount w;
     isFlushing := isFlushing w; localStorage := localStorage w;
     gmStorage := gmStorage w; timers := timers w; inflight := inflight w |}.

Definition set_retryCount (n : nat) (w : World) : World :=
  {| queue := queue w; sessionId := sessionId w; retryCount := n;
     isFlushing := isFlushing w; localStorage := localStorage w;
     gmStorage := gmStorage w; timers := timers w; inflight := inflight w |}.

Definition set_isFlushing (b : bool) (w : World) : World :=
  {| queue := queue w; sessionId := sessionId w; retryCount := retryCount w;
     isFlushing := b; localStorage := localStorage w;
     gmStorage := gmStorage w; timers := timers w; inflight := inflight w |}.

Definition set_localStorage (s : option FailedItem) (w : World) : World :=
  {| queue := queue w; sessionId := sessionId w; retryCount := retryCount w;
     isFlushing := isFlushing w; localStorage := s;
     gmStorage := gmStorage w; timers := timers w; inflight := inflight w |}.

Definition set_gmStorage (s : option FailedItem) (w : World) : World :=
  {| queue := queue w; sessionId := sessionId w; retryCount := retryCount w;
     isFlushing := isFlushing w; localStorage := localStorage w;
     gmStorage := s; timers := timers w; inflight := inflight w |}.

Definition set_timers (t : list Timer) (w : World) : World :=
  {| queue := queue w; sessionId := sessionId w; retryCount := retryCount w;
     isFlushing := isFlushing w; localStorage := localStorage w;
     gmStorage := gmStorage w; timers := t; inflight := inflight w |}.

Definition set_inflight (r : list Request) (w : World) : World :=
  {| queue := queue w; sessionId := sessionId w; retryCount := retryCount w;
     isFlushing := isFlushing w; localStorage := localStorage w;
     gmStorage := gmStorage w; timers := timers w; inflight := r |}.

(** [setTimeout(cb, ms)] *)
Definition setTimeout (cb : Callback) (ms : nat) (w : World) : World :=
  set_timers (timers w ++ [{| delay := ms; callback := cb |}]) w.

(** [l.slice(-n)]: the last [n] elements. *)
Definition slice_last (n : nat) (l : list Event) : list Event :=
  skipn (length l - n) l.

(** [JSON.parse(store.getItem('pixel_failed_events') || '[]')] *)
Definition read_failed (item : FailedItem) : list Event :=
  match item with
  | Some evs => evs
  | None => []
  end.

(** ** flush

    [flush] is an [async] function. A call runs its body up to the
    [await fetch(...)]: the guard, the latch and the snapshot; that is
    [flush] below. The rest of the body runs when the request settles,
    see [settle]. *)
Definition flush (sync : bool) (w : World) : World :=
  if (length (queue w) =? 0)%nat || isFlushing w then w
  else
    let w1 := set_isFlushing true w in
    let snapshot := queue w1 in
    let w2 := set_queue [] w1 in
    set_inflight (inflight w2 ++ [{| eventsToSend := snapshot; synchronous := sync |}]) w2.

(** The continuation of [flush] after the [await]: the end of the [try]
    block, the [catch] block and the [finally] block. [spill] is what the
    variant at hand does with a batch it gives up on. *)
Definition settle (spill : list Event -> World -> World)
    (r : Request) (o : Outcome) (w : World) : World :=
  match o with
  | Delivered =>
      let w1 := set_retryCount 0 w in
      set_isFlushing false w1
  | Failed =>
      if negb (synchronous r) && (retryCount w <? maxRetries)%nat then
        let w1 := set_retryCount (S (retryCount w)) w in
        let w2 := set_queue (eventsToSend r ++ queue w1) w1 in
        let w3 := setTimeout RetryFlush (retryDelay * retryCount w2) w2 in
        set_isFlushing false w3
      else
        let w1 := spill (eventsToSend r) w in
        set_isFlushing false w1
  end.

(** A timer fires. *)
Definition run_callback (cb : Callback) (w : World) : World :=
  match cb with
  | RetryFlush => flush false (set_isFlushing false w)
  | DelayedFlush => flush false w
  end.

(** ** track *)
Definition make_event (w : World) (eventType : string) (md : Value)
    (pg : Page) : Event :=
  {| session_id := sessionId w;
     event_type := eventType;
     url := href pg;
     referrer := if String.eqb (doc_referrer pg) "" then None
                 else Some (doc_referrer pg);
     timestamp := iso_now pg;
     metadata := match md with Some m => m | None => JObj [] end |}.

Definition track (eventType : string) (md : Value) (pg : Page) (w : World)
    : World :=
  let w1 := if (maxQueueSize <=? length (queue w))%nat
            then flush false w else w in
  set_queue (queue w1 ++ [make_event w1 eventType md pg]) w1.

(** A series of [track] calls, each with its event type, metadata and
    page. *)
Definition track_all (calls : list (string * Value * Page)) (w : World) : World :=
  fold_left (fun w c => track c.1.1 c.1.2 c.2 w) calls w.

(** ** Scheduling

    What can happen to a tracker: a call of [track], a call of [flush]
    (the periodic timer, an unload or visibility handler, [destroy]), the
    settling of the request at position [i] of [inflight], the firing of
    the timer at position [i] of [timers]. *)
Inductive Action : Type :=
| Track (eventType : string) (md : Value) (pg : Page)
| Flush (sync : bool)
| Settle (i : nat) (o : Outcome)
| Fire (i : nat).

Definition step (spill : list Event -> World -> World) (a : Action)
    (w : World) : World :=
  match a with
  | Track eventType md pg => track eventType md pg w
  | Flush sync => flush sync w
  | Settle i o =>
      match inflight w !! i with
      | Some r => settle spill r o (set_inflight (delete i (inflight w)) w)
      | None => w
      end
  | Fire i =>
      match timers w !! i with
      | Some t => run_callback (callback t) (set_timers (delete i (timers w)) w)
      | None => w
      end
  end.

Definition run (spill : list Event -> World -> World) (acts : list Action)
    (w : World) : World :=
  fold_left (fun w a => step spill a w) acts w.

(** The attempts a batch goes through when every request fails: the
    flush and its three retries. *)
Definition four_failures : list Action :=
  [Flush false; Settle 0 Failed; Fire 0; Settle 0 Failed;
   Fire 0; Settle 0 Failed; Fire 0; Settle 0 Failed].

(** The state the constructor leaves behind, before [init] runs. (The
    constructor of [pixel.js] misspells the latch and leaves [isFlushing]
    undefined, which every test of it reads as [false].) *)
Definition fresh (sid : string) (ls gm : option FailedItem) : World :=
  {| queue := []; sessionId := sid; retryCount := 0; isFlushing := false;
     localStorage := ls; gmStorage := gm; timers := []; inflight := [] |}.

(** ** handleClick, trackCustomEvent, destroy *)

(** What [handleClick] reads of the clicked element: [tagName], [id],
    [className], [innerText] (undefined on elements that have none),
    [href] and [type] (undefined on elements without that property).

    A JavaScript string is a sequence of UTF-16 code units, and [length]
    and [substring] count code units. The texts the tracker only
    compares, joins and sends are kept as [string]s; [innerText], which
    [handleClick] cuts, is kept as its code units. *)
Record Target : Type := {
  tagName : string;
  el_id : string;
  className : string;
  innerText : option (list N);
  el_href : option string;
  el_type : option string
}.

(** [s || null] for a string [s] *)
Definition str_or_null (s : string) : JValue :=
  if String.eqb s "" then JNull else JStr s.

(** A property assignment as [JSON.stringify] shows it: a property whose
    value is undefined is left out of the JSON text. *)
Definition json_prop (k : string) (v : option string)
    : list (string * JValue) :=
  match v with
  | Some s => [(k, JStr s)]
  | None => []
  end.

Section Click.

(** The [string] that stands for the JavaScript string made of the given
    code units. *)
Variable js_text : list N -> string.

(** The [metadata] object [handleClick] builds.
    [target.innerText.substring(0, 50)] keeps the first 50 code units;
    an empty text is falsy and recorded as [null]. *)
Definition click_metadata (t : Target) : JValue :=
  JObj
    ([("target", JStr (tagName t));
      ("id", str_or_null (el_id t));
      ("class", str_or_null (className t));
      ("text", match innerText t with
               | Some units =>
                   if (length units =? 0)%nat then JNull
                   else JStr (js_text (firstn 50 units))
               | None => JNull
               end)]
     ++ (if String.eqb (tagName t) "A" then json_prop "href" (el_href t)
         else [])
     ++ (if String.eqb (tagName t) "BUTTON"
            || match el_type t with
               | Some ty => String.eqb ty "button"
               | None => false
               end
         then json_prop "type" (el_type t)
         else [])).

Definition handleClick (t : Target) (pg : Page) (w : World) : World :=
  track "click" (Some (click_metadata t)) pg w.

End Click.

Definition trackCustomEvent (eventName : string) (md : Value) (pg : Page)
    (w : World) : World :=
  track eventName md pg w.

(** [destroy]: the final [this.flush(true)]. (Clearing the interval has no
    effect on the state modelled here.) *)
Definition destroy (w : World) : World := flush true w.

(** A request in flight fails, and so does each of its three retries. *)
Definition every_attempt_fails : list Action :=
  [Settle 0 Failed; Fire 0; Settle 0 Failed; Fire 0; Settle 0 Failed;
   Fire 0; Settle 0 Failed].

(** ** What a run does to the events

    The events a step hands over for good: the batch of a request that is
    delivered, or that fails and is given up. *)
Definition leaves (a : Action) (w : World) : list Event :=
  match a with
  | Settle i o =>
      match inflight w !! i with
      | Some r =>
          match o with
          | Delivered => eventsToSend r
          | Failed =>
              if negb (synchronous r) && (retryCount w <? maxRetries)%nat
              then [] else eventsToSend r
          end
      | None => []
      end
  | _ => []
  end.

(** The event a step queues. *)
Definition queued_by (a : Action) (w : World) : list Event :=
  match a with
  | Track eventType md pg => [make_event w eventType md pg]
  | _ => []
  end.

(** The events handed over, and the events queued, along a run. *)
Fixpoint handed_over (spill : list Event -> World -> World)
    (acts : list Action) (w : World) : list Event :=
  match acts with
  | [] => []
  | a :: rest => leaves a w ++ handed_over spill rest (step spill a w)
  end.

Fixpoint tracked (spill : list Event -> World -> World)
    (acts : list Action) (w : World) : list Event :=
  match acts with
  | [] => []
  | a :: rest => queued_by a w ++ tracked spill rest (step spill a w)
  end.

(** The events of the requests in flight, oldest request first. *)
Definition in_flight (w : World) : list Event :=
  flat_map eventsToSend (inflight w).

(** One request at most is in flight, and the latch is set exactly while
    one is. *)
Definition single_flight (w : World) : Prop :=
  (inflight w = [] /\ isFlushing w = false) \/
  (exists r, inflight w = [r] /\ isFlushing w = true).

Definition is_fire (a : Action) : bool :=
  match a with
  | Fire _ => true
  | _ => false
  end.

Definition is_delivery (a : Action) : bool :=
  match a with
  | Settle _ Delivered => true
  | _ => false
  end.

(** The number of events in a store ([0] without a store). *)
Definition stored_count (store : option FailedItem) : nat :=
  match store with
  | Some item => length (read_failed item)
  | None => 0
  end.

(** A way of giving a batch up that writes to the stores and to nothing
    else of the tracker. *)
Definition stores_only (spill : list Event -> World -> World) : Prop :=
  forall evs w,
    queue (spill evs w) = queue w /\
    sessionId (spill evs w) = sessionId w /\
    retryCount (spill evs w) = retryCount w /\
    isFlushing (spill evs w) = isFlushing w /\
    timers (spill evs w) = timers w /\
    inflight (spill evs w) = inflight w.

(** Neither store holds more than 100 events. *)
Definition within_cap (w : World) : Prop :=
  (stored_count (localStorage w) <= 100)%nat /\
  (stored_count (gmStorage w) <= 100)%nat.

(** ** src/public/pixel.js *)
Module PixelJs.

(** The tail of the [catch] block of [flush]: the batch goes to
    [localStorage], of which the last 100 entries are kept. *)
Definition spill (evs : list Event) (w : World) : World :=
  match localStorage w with
  | None => w
  | Some item =>
      let failed := read_failed item ++ evs in
      set_localStorage (Some (Some (slice_last 100 failed))) w
  end.

Definition settle : Request -> Outcome -> World -> World :=
  Pixel.settle spill.

Definition recoverFailedEvents (w : World) : World :=
  match localStorage w with
  | None => w
  | Some item =>
      let failed := read_failed item in
      if (0 <? length failed)%nat then
        let w1 := set_queue (queue w ++ failed) w in
        let w2 := set_localStorage (Some None) w1 in
        flush false w2
      else w
  end.

(** [new Pixel()] followed by [recoverFailedEvents()]: [init] has queued
    the first page view by the time the recovery runs. *)
Definition start (sid : string) (pg : Page) (ls : option FailedItem)
    : World :=
  recoverFailedEvents (track "pageview" None pg (fresh sid ls None)).

End PixelJs.

(** ** The userscript with Greasemonkey storage (src/unnamed/part_001) *)
Module UserscriptGM.

Definition storeFailedEvents (evs : list Event) (w : World) : World :=
  match gmStorage w with
  | Some item =>
      let failed := read_failed item ++ evs in
      set_gmStorage (Some (Some (slice_last 100 failed))) w
  | None =>
      match localStorage w with
      | Some item =>
          let failed := read_failed item ++ evs in
          set_localStorage (Some (Some (slice_last 100 failed))) w
      | None => w
      end
  end.

Definition settle : Request -> Outcome -> World -> World :=
  Pixel.settle storeFailedEvents.

Definition recoverFailedEvents (w : World) : World :=
  let '(failed, w1) :=
    match gmStorage w with
    | Some item =>
        let failed := read_failed item in
        (failed,
         if (0 <? length failed)%nat then set_gmStorage (Some (Some [])) w
         else w)
    | None =>
        match localStorage w with
        | Some item =>
            let failed := read_failed item in
            (failed,
             if (0 <? length failed)%nat then set_localStorage (Some None) w
             else w)
        | None => ([], w)
        end
    end in
  if (0 <? length failed)%nat then
    let w2 := set_queue (queue w1 ++ failed) w1 in
    setTimeout DelayedFlush 1000 w2
  else w1.

(** [init]: the first page view is queued before the recovery runs. *)
Definition start (sid : string) (pg : Page) (ls gm : option FailedItem)
    : World :=
  recoverFailedEvents (track "pageview" None pg (fresh sid ls gm)).

End UserscriptGM.

(** ** The userscript with [localStorage] sessions (src/unnamed/part_002) *)
Module UserscriptLS.

(** In this variant the [catch] block of [flush] ends after the retry
    branch: a batch that is not retried is not stored anywhere. *)
Definition spill (evs : list Event) (w : World) : World := w.

Definition settle : Request -> Outcome -> World -> World :=
  Pixel.settle spill.

(** The record kept under ['pixel_session_data']. [lastActivity] is
    [None] when the property is absent. *)
Record SessionData : Type := {
  sd_sessionId : string;
  created : Z;
  lastActivity : option Z
}.

(** The stored text either parses ([JSON.parse]) or does not. *)
Inductive Item : Type :=
| Unparseable
| Parsed (d : SessionData).

(** [session_store] is [None] when touching [localStorage] throws,
    [Some None] when the key is absent. [pixelSessionId] is
    [window._pixelSessionId]. *)
Record Window : Type := {
  session_store : option (option Item);
  pixelSessionId : option string
}.

(** The values the environment supplies during one call: each [Date.now()]
    in program order, and [Math.random().toString(36)]. *)
Record Readings : Type := {
  now_check : Z;
  random36 : string;
  now_id : Z;
  now_created : Z;
  now_activity : Z
}.

Definition digit36 (d : N) : ascii :=
  if (d <? 10)%N then ascii_of_N (48 + d) else ascii_of_N (87 + d).

Fixpoint digits36 (fuel : nat) (n : N) (acc : string) : string :=
  match fuel with
  | O => acc
  | S fuel' =>
      let acc' := String (digit36 (n mod 36)) acc in
      if (n / 36 =? 0)%N then acc' else digits36 fuel' (n / 36) acc'
  end.

(** [n.toString(36)] for an integer [n] *)
Definition to_base36 (z : Z) : string :=
  let n := Z.to_N (Z.abs z) in
  let body := digits36 (S (N.to_nat (N.log2 n))) n "" in
  if (z <? 0)%Z then "-" +:+ body else body.

(** [Math.random().toString(36).substr(2, 9) + Date.now().toString(36)] *)
Definition generateId (r : Readings) : string :=
  substring 2 9 (random36 r) +:+ to_base36 (now_id r).

(** The number a string of base-36 digits denotes. *)
Definition digit36_value (c : ascii) : N :=
  let n := N_of_ascii c in
  if (n <? 58)%N then (n - 48)%N else (n - 87)%N.

Fixpoint base36_value (s : string) (acc : N) : N :=
  match s with
  | EmptyString => acc
  | String c rest => base36_value rest (36 * acc + digit36_value c)
  end.

(** [sessionData.lastActivity || 0] *)
Definition last_activity_or_0 (d : SessionData) : Z :=
  match lastActivity d with
  | Some t => t
  | None => 0%Z
  end.

(** [localStorage.setItem(STORAGE_KEY, JSON.stringify(...))] *)
Definition put (i : Item) (w : Window) : Window :=
  {| session_store := Some (Some i); pixelSessionId := pixelSessionId w |}.

(** [getOrCreateSession]: the [try] block when [localStorage] answers,
    the [catch] block (an id kept in memory) when it throws. *)
Definition getOrCreateSession (r : Readings) (w : Window) : string * Window :=
  match session_store w with
  | Some stored =>
      let live :=
        match stored with
        | Some (Parsed sessionData) =>
            let now := now_check r in
            let lastActivity := last_activity_or_0 sessionData in
            if (now - lastActivity <? sessionTimeout)%Z then
              Some {| sd_sessionId := sd_sessionId sessionData;
                      created := created sessionData;
                      lastActivity := Some now |}
            else None
        | Some Unparseable => None
        | None => None
        end in
      match live with
      | Some sessionData =>
          (sd_sessionId sessionData, put (Parsed sessionData) w)
      | None =>
          let newSessionId := "sess_" +:+ generateId r in
          let newSessionData :=
            {| sd_sessionId := newSessionId;
               created := now_created r;
               lastActivity := Some (now_activity r) |} in
          (newSessionId, put (Parsed newSessionData) w)
      end
  | None =>
      match pixelSessionId w with
      | Some id => (id, w)
      | None =>
          let id := "sess_" +:+ generateId r in
          (id, {| session_store := None; pixelSessionId := Some id |})
      end
  end.

(** [updateSessionActivity]: the stored record gets the current time as
    [lastActivity]; nothing happens when nothing is stored, when the text
    does not parse or when [localStorage] throws. *)
Definition updateSessionActivity (now : Z) (w : Window) : Window :=
  match session_store w with
  | Some (Some (Parsed sessionData)) =>
      put (Parsed {| sd_sessionId := sd_sessionId sessionData;
                     created := created sessionData;
                     lastActivity := Some now |}) w
  | _ => w
  end.

End UserscriptLS.

(** ** Session ids of [pixel.js] (src/public/pixel.js, [getSessionId]) *)
Module TabSession.

(** [Math.random().toString(36).substr(2, 9) + Date.now().toString(36)],
    the same text in every variant. *)
Definition generateId (random36 : string) (now : Z) : string :=
  substring 2 9 random36 +:+ UserscriptLS.to_base36 now.

(** [getSessionId]: [item] is the ['pixel_session_id'] item of
    [sessionStorage], [None] when absent. The result is the id and the
    item afterwards. *)
Definition getSessionId (random36 : string) (now : Z) (item : option string)
    : string * option string :=
  let sid := match item with Some s => s | None => "" end in
  if String.eqb sid "" then
    let sid := "sess_" +:+ generateId random36 now in
    (sid, Some sid)
  else (sid, item).

End TabSession.

End Pixel.

(* ===================================================================== *)
(** * The query helper (src/unnamed/part_000, [query]) *)
(* ===================================================================== *)

Module Db.

Definition MAX_RETRY_ATTEMPTS : nat := 3.

Definition retryableCodes : list string :=
  ["ECONNRESET"; "ENOTFOUND"; "ETIMEDOUT"; "57P03"].

(** What one call of [pool.query] does: it resolves with a result, or it
    rejects with an error whose [code] may be undefined. *)
Inductive Attempt (R : Type) : Type :=
| Resolves (res : R)
| Rejects (code : option string).
Arguments Resolves {R} res.
Arguments Rejects {R} code.

(** How [query] ends. *)
Inductive Ending (R : Type) : Type :=
| Returned (res : R)
| Thrown (code : option string).
Arguments Returned {R} res.
Arguments Thrown {R} code.

(** [retryableCodes.includes(err.code)] *)
Definition includes (code : option string) : bool :=
  match code with
  | Some c => existsb (String.eqb c) retryableCodes
  | None => false
  end.

(** [query(text, params, retries)]. [pool_query n] is what the call of
    [pool.query] made with [retries = n] does. The result is how the call
    ends and the delays it waited, in milliseconds and in order. [left]
    counts the retries still allowed, [MAX_RETRY_ATTEMPTS - retries]. *)
Fixpoint query_loop {R : Type} (left : nat) (pool_query : nat -> Attempt R)
    (retries : nat) : Ending R * list nat :=
  match pool_query retries with
  | Resolves res => (Returned res, [])
  | Rejects code =>
      match left with
      | S left' =>
          if includes code then
            let '(ending, waits) := query_loop left' pool_query (S retries) in
            (ending, (1000 * (retries + 1))%nat :: waits)
          else (Thrown code, [])
      | O => (Thrown code, [])
      end
  end.

Definition query {R : Type} (pool_query : nat -> Attempt R) (retries : nat)
    : Ending R * list nat :=
  query_loop (MAX_RETRY_ATTEMPTS - retries) pool_query retries.

(** The calls before the [k]th were rejected with retryable codes. *)
Definition retried {R : Type} (pool_query : nat -> Attempt R) (k : nat)
    : Prop :=
  forall j, (j < k)%nat ->
            exists code, pool_query j = Rejects code /\ includes code = true.

(** The delays waited before the [k]th call. *)
Definition waits_before (k : nat) : list nat :=
  map (fun j => (1000 * (j + 1))%nat) (seq 0 k).

End Db.

(* ===================================================================== *)
(** * Vocabulary of the statements *)
(* ===================================================================== *)

Module ServerSpec.
Import Server.

Section Vocabulary.
Context {C : SqlCodec}.

(** The fields of a non-null entry, as [destructure] reads them. *)
Definition fields_of (e : JValue) : Fields :=
  {| f_session_id := prop e "session_id";
     f_event_type := prop e "event_type";
     f_url := prop e "url";
     f_referrer := prop e "referrer";
     f_timestamp := prop e "timestamp";
     f_metadata := prop e "metadata" |}.

(** An entry lacks a required field when the field is absent, [null],
    empty (or otherwise falsy). *)
Definition lacks (e : JValue) (k : string) : bool :=
  negb (truthy (prop e k)).

Definition lacks_required (e : JValue) : bool :=
  lacks e "session_id" || lacks e "event_type" || lacks e "url".

Definition is_null (e : JValue) : bool :=
  match e with
  | JNull => true
  | _ => false
  end.

(** The database refuses the statements of an entry. *)
Definition db_refuses (e : JValue) : bool := refused (fields_of e).

(** An entry that passes through the loop body: it is not [null], has
    the required fields and is stored by the database. *)
Definition entry_ok (e : JValue) : bool :=
  negb (is_null e) && negb (lacks_required e) && negb (db_refuses e).

(** The session an entry belongs to, and whether it counts as a page
    view. *)
Definition entry_key (e : JValue) : string := sql_text (prop e "session_id").
Definition entry_time (e : JValue) : option Z := sql_time (prop e "timestamp").
Definition is_pageview (e : JValue) : bool :=
  strict_eq_str (prop e "event_type") "pageview".

(** How the loop ends, given the first entry it cannot pass. *)
Definition exit_at (bad : option JValue) : LoopExit :=
  match bad with
  | None => Completed
  | Some e =>
      if is_null e then Raised
      else if lacks_required e then Rejected
      else Raised
  end.

(** A body whose batch is ingested. *)
Definition accepted (body : JValue) : bool :=
  match body with
  | JArr evs =>
      negb (length evs =? 0)%nat && negb (100 <? length evs)%nat
      && forallb entry_ok evs
  | _ => false
  end.

Definition batch_of (body : JValue) : list JValue :=
  match body with
  | JArr evs => evs
  | _ => []
  end.

(** The effect of a batch that runs through the loop. *)
Definition store_all (ua : option string) (evs : list JValue) (db : DB) : DB :=
  fold_left (fun tx e => store_event ua (fields_of e) tx) evs db.

Definition store_pair (db : DB) (p : option string * JValue) : DB :=
  store_event p.1 (fields_of p.2) db.

(** A request: the parsed body and the [User-Agent] header. *)
Record Request : Type := {
  body : JValue;
  header_ua : option string
}.

(** Requests served one after the other. *)
Fixpoint serve (db : DB) (reqs : list Request) : DB * list Response :=
  match reqs with
  | [] => (db, [])
  | r :: rest =>
      let '(resp, db1) := post_events db (body r) (header_ua r) in
      let '(db2, resps) := serve db1 rest in
      (db2, resp :: resps)
  end.

(** The entries the server has ingested out of a sequence of requests, in
    order, each with the header of its request. *)
Definition ingested (reqs : list Request) : list (option string * JValue) :=
  flat_map (fun r => if accepted (body r)
                     then map (fun e => (header_ua r, e)) (batch_of (body r))
                     else []) reqs.

(** Every entry of every body, accepted or not. *)
Definition entries (reqs : list Request) : list (option string * JValue) :=
  flat_map (fun r => map (fun e => (header_ua r, e)) (batch_of (body r))) reqs.

Definition of_session (k : string) (l : list (option string * JValue))
    : list (option string * JValue) :=
  List.filter (fun p => String.eqb (entry_key p.2) k) l.

Definition pageviews (l : list (option string * JValue)) : nat :=
  length (List.filter (fun p => is_pageview p.2) l).

Definition pageview_increment (e : JValue) : Z :=
  if is_pageview e then 1 else 0.

(** [x <= y] on nullable timestamps: it constrains non-null values only. *)
Definition time_le (x y : option Z) : Prop :=
  forall a b, x = Some a -> y = Some b -> (a <= b)%Z.

(** The row the upsert leaves for the session of an entry. *)
Definition upserted (ua : option string) (e : JValue) (old : option Session)
    : Session :=
  match old with
  | None =>
      {| start_time := entry_time e; end_time := None;
         page_views := pageview_increment e; user_agent := ua |}
  | Some s =>
      {| start_time := start_time s; end_time := entry_time e;
         page_views := (page_views s + pageview_increment e)%Z;
         user_agent := coalesce (user_agent s) ua |}
  end.

Definition nonneg_rows (db : DB) : Prop :=
  forall k s, sessions db !! k = Some s -> (0 <= page_views s)%Z.

(** What the [end_time] of a session is after the entries [first :: rest]
    of the session were stored. *)
Definition last_time (first : option string * JValue)
    (rest : list (option string * JValue)) : option Z :=
  match rest with
  | [] => None
  | _ :: _ => entry_time (List.last rest first).2
  end.

Definition page_views_of (db : DB) (k : string) : Z :=
  match sessions db !! k with
  | Some s => page_views s
  | None => 0
  end.

(** The row of [events] an entry is stored as. *)
Definition row_of (e : JValue) : EventRow :=
  {| row_session_id := prop e "session_id";
     row_event_type := prop e "event_type";
     row_url := prop e "url";
     row_referrer := or_else (prop e "referrer") (Some JNull);
     row_timestamp := prop e "timestamp";
     row_metadata := or_else (prop e "metadata") (Some (JObj [])) |}.

(** The [count] a response reports ([0] when it reports none). *)
Definition count_of (resp : Response) : nat :=
  match payload resp with
  | Ingested _ n => n
  | Error _ => 0
  end.

Definition sum_counts (resps : list Response) : nat :=
  fold_right (fun resp n => (count_of resp + n)%nat) 0%nat resps.

End Vocabulary.
End ServerSpec.

(* ===================================================================== *)
(** * Sample data *)
(* ===================================================================== *)

Module Samples.

(** The number spelled by the decimal digits of a string. *)
Fixpoint digits_value (s : string) (acc : Z) : Z :=
  match s with
  | EmptyString => acc
  | String c rest =>
      let n := Z.of_nat (nat_of_ascii c) in
      if (48 <=? n)%Z && (n <=? 57)%Z
      then digits_value rest (10 * acc + (n - 48))
      else digits_value rest acc
  end.

(** [s] has the shape of [pat], in which ["0"] stands for any digit. *)
Fixpoint shaped (pat s : string) : bool :=
  match pat, s with
  | EmptyString, EmptyString => true
  | String p pat', String c s' =>
      (if Ascii.eqb p "0"
       then (48 <=? nat_of_ascii c)%nat && (nat_of_ascii c <=? 57)%nat
       else Ascii.eqb p c)
      && shaped pat' s'
  | _, _ => false
  end.

(** A text as [toISOString()] writes it. *)
Definition iso_timestamp (v : Value) : bool :=
  match v with
  | Some (JStr s) => shaped "0000-00-00T00:00:00.000Z" s
  | _ => false
  end.

Definition json_object (v : Value) : bool :=
  match v with
  | Some (JObj _) => true
  | _ => false
  end.

(** A codec to run the handler with: text is stored as it is, and a
    timestamp written by [toISOString()] denotes the number its digits
    spell (year first, milliseconds last), which orders such timestamps
    by time. The database is a strict one: its timestamp column takes
    the texts [toISOString()] writes and nothing else, not even [NULL],
    and its metadata column takes JSON objects. *)
Definition codec : SqlCodec :=
  {| sql_text := fun v => match v with Some (JStr s) => s | _ => "" end;
     sql_time := fun v => match v with
                          | Some (JStr s) => Some (digits_value s 0)
                          | _ => None
                          end;
     sql_refuses := fun _ _ _ _ ts md =>
                      negb (iso_timestamp ts) || negb (json_object md) |}.

Definition page : Pixel.Page :=
  {| Pixel.href := "https://example.org/";
     Pixel.doc_referrer := "";
     Pixel.iso_now := "2025-01-01T00:00:10.000Z" |}.

Definition event (ty ts : string) : Pixel.Event :=
  {| Pixel.session_id := "sess_a";
     Pixel.event_type := ty;
     Pixel.url := "https://example.org/";
     Pixel.referrer := None;
     Pixel.timestamp := ts;
     Pixel.metadata := JObj [] |}.

Definition request (evs : list Pixel.Event) (ua : string) : ServerSpec.Request :=
  {| ServerSpec.body := Pixel.batch_json evs;
     ServerSpec.header_ua := Some ua |}.

(** Two page views and a click of one session, in two batches. *)
Definition two_batches : list ServerSpec.Request :=
  [request [event "pageview" "2025-01-01T00:00:01.000Z";
            event "click" "2025-01-01T00:00:02.000Z"] "Mozilla/5.0";
   request [event "pageview" "2025-01-01T00:00:03.000Z"] "curl/8.0"].

(** A batch whose second entry is stamped before its first one, as when
    recovered events are queued behind a fresh page view. *)
Definition out_of_order : list ServerSpec.Request :=
  [request [event "pageview" "2025-01-01T00:00:10.000Z";
            event "click" "2025-01-01T00:00:05.000Z"] "Mozilla/5.0"].

(** An entry with an event type outside the enumeration and neither
    [referrer] nor [metadata]. *)
Definition bare_entry : JValue :=
  JObj [("session_id", JStr "sess_a"); ("event_type", JStr "scroll");
        ("url", JStr "https://example.org/");
        ("timestamp", JStr "2025-01-01T00:00:04.000Z")].

(** The same entry with a [timestamp] that is not one. *)
Definition unstamped_entry : JValue :=
  JObj [("session_id", JStr "sess_a"); ("event_type", JStr "scroll");
        ("url", JStr "https://example.org/");
        ("timestamp", JStr "not a timestamp")].

(** A tracker of [pixel.js] with an empty [localStorage], right after
    [init] queued the first page view. *)
Definition first_view : Pixel.World :=
  Pixel.track "pageview" None page (Pixel.fresh "sess_a" (Some None) None).

(** A flush and its first two retries, all failing. *)
Definition three_failures : list Pixel.Action :=
  [Pixel.Flush false; Pixel.Settle 0 Pixel.Failed;
   Pixel.Fire 0; Pixel.Settle 0 Pixel.Failed;
   Pixel.Fire 0; Pixel.Settle 0 Pixel.Failed].

(** A flush stays in flight while 50 clicks are tracked. *)
Definition busy : Pixel.World :=
  Pixel.run Pixel.PixelJs.spill
    (Pixel.Flush false :: repeat (Pixel.Track "click" None page) 50)
    first_view.

(** Fifty events queued and nothing sent yet. *)
Definition full_idle : Pixel.World :=
  Pixel.run Pixel.PixelJs.spill
    (repeat (Pixel.Track "click" None page) 49) first_view.

(** A retry timer fires while the request of a later flush is in
    flight, and 50 clicks are tracked before that request settles. *)
Definition overlapping : Pixel.World :=
  Pixel.run Pixel.PixelJs.spill
    ([Pixel.Flush false; Pixel.Settle 0 Pixel.Failed; Pixel.Flush false;
      Pixel.Fire 0] ++ repeat (Pixel.Track "click" None page) 50)
    first_view.

(** [Math.random()] returned 0.5, which base 36 renders as ["0.i"]. *)
Definition short_random : Pixel.UserscriptLS.Readings :=
  {| Pixel.UserscriptLS.now_check := 1735689610000;
     Pixel.UserscriptLS.random36 := "0.i";
     Pixel.UserscriptLS.now_id := 1735689610000;
     Pixel.UserscriptLS.now_created := 1735689610000;
     Pixel.UserscriptLS.now_activity := 1735689610000 |}.

Definition usual_random : Pixel.UserscriptLS.Readings :=
  {| Pixel.UserscriptLS.now_check := 1735689610000;
     Pixel.UserscriptLS.random36 := "0.4fzyo82mvyr";
     Pixel.UserscriptLS.now_id := 1735689610001;
     Pixel.UserscriptLS.now_created := 1735689610001;
     Pixel.UserscriptLS.now_activity := 1735689610002 |}.

(** A browser with nothing stored. *)
Definition first_visit : Pixel.UserscriptLS.Window :=
  {| Pixel.UserscriptLS.session_store := Some None;
     Pixel.UserscriptLS.pixelSessionId := None |}.

(** A session last active ten minutes before [now_check]. *)
Definition recent : Pixel.UserscriptLS.SessionData :=
  {| Pixel.UserscriptLS.sd_sessionId := "sess_4fzyo82mvm59d2r5s";
     Pixel.UserscriptLS.created := 1735680000000;
     Pixel.UserscriptLS.lastActivity := Some 1735689010000 |}.

Definition returning : Pixel.UserscriptLS.Window :=
  {| Pixel.UserscriptLS.session_store := Some (Some (Pixel.UserscriptLS.Parsed recent));
     Pixel.UserscriptLS.pixelSessionId := None |}.

(** An event a previous page load could not deliver. *)
Definition stale : Pixel.Event := event "click" "2024-12-31T23:59:00.000Z".

(** An entry of another session. *)
Definition other_entry : JValue :=
  JObj [("session_id", JStr "sess_b"); ("event_type", JStr "pageview");
        ("url", JStr "https://example.org/b");
        ("timestamp", JStr "2025-01-01T00:00:06.000Z")].

(** A fallback store filled to its cap. *)
Definition full_store : list Pixel.Event := repeat stale 100.

(** Five minutes after [usual_random]. *)
Definition five_minutes_later : Pixel.UserscriptLS.Readings :=
  {| Pixel.UserscriptLS.now_check := 1735689910000;
     Pixel.UserscriptLS.random36 := "0.9x2k7q1zd8f";
     Pixel.UserscriptLS.now_id := 1735689910000;
     Pixel.UserscriptLS.now_created := 1735689910000;
     Pixel.UserscriptLS.now_activity := 1735689910000 |}.

(** A click is tracked; the flush of the two queued events fails and is
    sent again by the next flush, which succeeds while a third event is
    tracked. *)
Definition a_retry : list Pixel.Action :=
  [Pixel.Track "click" None page; Pixel.Flush false;
   Pixel.Settle 0 Pixel.Failed; Pixel.Flush false;
   Pixel.Track "scroll" None page; Pixel.Settle 0 Pixel.Delivered].

(** A rendering of texts whose code units are below 256: one character
    for each unit. *)
Definition latin1 (units : list N) : string :=
  string_of_list_ascii (map ascii_of_N units)%list.

(** A button labelled with sixty times U+00E9. *)
Definition accented_button : Pixel.Target :=
  {| Pixel.tagName := "BUTTON";
     Pixel.el_id := "";
     Pixel.className := "primary";
     Pixel.innerText := Some (repeat 233%N 60);
     Pixel.el_href := None;
     Pixel.el_type := Some "submit" |}.

End Samples.

(* ===================================================================== *)
(** * The ingestion service: facts *)
(* ===================================================================== *)

Module ServerFacts.
Import Server ServerSpec.
Section Facts.
Context {C : SqlCodec}.

Lemma destructure_fields (e : JValue) :
  is_null e = false -> destructure e = Ok (fields_of e).
Proof. destruct e; simpl; intros Hn; try discriminate; reflexivity. Qed.

Lemma missing_required_fields (e : JValue) :
  missing_required (fields_of e) = lacks_required e.
Proof. reflexivity. Qed.

Lemma entry_ok_cases (e : JValue) :
  entry_ok e = true <->
  is_null e = false /\ lacks_required e = false /\ db_refuses e = false.
Proof.
  unfold entry_ok.
  destruct (is_null e), (lacks_required e), (db_refuses e); simpl;
    intuition discriminate.
Qed.

(** The loop, in terms of the first entry it cannot pass. *)
Lemma ingest_loop_exit (ua : option string) (evs : list JValue) (tx : DB) :
  (ingest_loop ua evs tx).1 =
  exit_at (List.find (fun e => negb (entry_ok e)) evs).
Proof.
  revert tx. induction evs as [|e evs IH]; intros tx; simpl; [reflexivity|].
  destruct (is_null e) eqn:Hn.
  - destruct e; try discriminate. reflexivity.
  - rewrite (destructure_fields e Hn), missing_required_fields.
    unfold entry_ok. rewrite Hn. simpl.
    destruct (lacks_required e) eqn:Hl; simpl.
    + rewrite Hn, Hl. reflexivity.
    + unfold db_refuses. destruct (refused (fields_of e)); simpl.
      * rewrite Hn, Hl. reflexivity.
      * apply IH.
Qed.

Lemma ingest_loop_completed (ua : option string) (evs : list JValue) (tx : DB) :
  forallb entry_ok evs = true ->
  ingest_loop ua evs tx = (Completed, store_all ua evs tx).
Proof.
  revert tx. induction evs as [|e evs IH]; intros tx Hall; simpl; [reflexivity|].
  simpl in Hall. apply andb_prop in Hall as [He Hall].
  apply entry_ok_cases in He as (Hn & Hl & Hr). unfold db_refuses in Hr.
  rewrite (destructure_fields e Hn), missing_required_fields, Hl, Hr.
  apply IH, Hall.
Qed.

Lemma find_none_forallb (evs : list JValue) :
  List.find (fun e => negb (entry_ok e)) evs = None <->
  forallb entry_ok evs = true.
Proof.
  induction evs as [|e evs IH]; simpl; [tauto|].
  destruct (entry_ok e); simpl; [exact IH|]. split; discriminate.
Qed.

(** An accepted body is answered with 200 and committed entry by entry. *)
Lemma post_events_accepted (db : DB) (b : JValue) (ua : option string) :
  accepted b = true ->
  post_events db b ua =
  (respond 200 (Ingested "Events ingested successfully" (length (batch_of b))),
   store_all ua (batch_of b) db).
Proof.
  destruct b as [| | | |evs|]; simpl; try discriminate.
  intros Hacc. apply andb_prop in Hacc as [Hlen Hall].
  apply andb_prop in Hlen as [Hne Hle].
  apply negb_true_iff in Hne, Hle. rewrite Hne, Hle.
  unfold begin. rewrite ingest_loop_completed by assumption. reflexivity.
Qed.

(** Any other body leaves the database as it was and is answered with
    400 or 500. *)
Lemma post_events_rejected (db : DB) (b : JValue) (ua : option string) :
  accepted b = false ->
  (post_events db b ua).2 = db /\
  (status (post_events db b ua).1 = 400%nat \/
   status (post_events db b ua).1 = 500%nat).
Proof.
  destruct b as [| | | |evs|]; simpl; intros Hacc; try (split; [reflexivity|left; reflexivity]).
  destruct (length evs =? 0)%nat; [split; [reflexivity|left; reflexivity]|].
  destruct (100 <? length evs)%nat; [split; [reflexivity|left; reflexivity]|].
  simpl in Hacc. pose proof (ingest_loop_exit ua evs (begin db)) as Hexit.
  destruct (ingest_loop ua evs (begin db)) as [ex tx]. simpl in Hexit. subst ex.
  destruct (List.find (fun e => negb (entry_ok e)) evs) as [bad|] eqn:Hf.
  - simpl. destruct (is_null bad); [split; auto|].
    destruct (lacks_required bad); split; auto.
  - apply find_none_forallb in Hf. congruence.
Qed.

Lemma status_200_accepted (db : DB) (b : JValue) (ua : option string) :
  status (post_events db b ua).1 = 200%nat <-> accepted b = true.
Proof.
  split.
  - intros H200. destruct (accepted b) eqn:Hacc; [reflexivity|].
    destruct (post_events_rejected db b ua Hacc) as [_ [H4|H5]]; congruence.
  - intros Hacc. rewrite post_events_accepted by assumption. reflexivity.
Qed.

Lemma store_all_app (ua : option string) (l1 l2 : list JValue) (db : DB) :
  store_all ua (l1 ++ l2) db = store_all ua l2 (store_all ua l1 db).
Proof. apply fold_left_app. Qed.

(** The database after a sequence of requests is the one obtained by
    storing the ingested entries one by one. *)
Lemma store_all_pairs (ua : option string) (evs : list JValue) (db : DB) :
  store_all ua evs db = fold_left store_pair (map (fun e => (ua, e)) evs) db.
Proof.
  revert db. induction evs as [|e evs IH]; intros db; simpl; [reflexivity|].
  apply IH.
Qed.

Lemma serve_ingested (reqs : list Request) (db : DB) :
  (serve db reqs).1 = fold_left store_pair (ingested reqs) db.
Proof.
  revert db. induction reqs as [|r reqs IH]; intros db; [reflexivity|].
  simpl. destruct (post_events db (body r) (header_ua r)) as [resp db1] eqn:Hp.
  specialize (IH db1). destruct (serve db1 reqs) as [db2 resps]. simpl in *.
  unfold ingested in *. simpl. rewrite fold_left_app, IH. f_equal.
  destruct (accepted (body r)) eqn:Hacc.
  - rewrite post_events_accepted in Hp by assumption.
    inversion Hp; subst. apply store_all_pairs.
  - destruct (post_events_rejected db (body r) (header_ua r) Hacc) as [Hdb _].
    rewrite Hp in Hdb. simpl in Hdb. subst. reflexivity.
Qed.

Lemma serve_responses (reqs : list Request) (db : DB) :
  Forall (fun resp => status resp = 200%nat) (serve db reqs).2 <->
  Forall (fun r => accepted (body r) = true) reqs.
Proof.
  revert db. induction reqs as [|r reqs IH]; intros db; simpl.
  - split; constructor.
  - destruct (post_events db (body r) (header_ua r)) as [resp db1] eqn:Hp.
    specialize (IH db1). destruct (serve db1 reqs) as [db2 resps]. simpl in *.
    assert (Hs : status resp = 200%nat <-> accepted (body r) = true).
    { rewrite <- (status_200_accepted db (body r) (header_ua r)), Hp. reflexivity. }
    split; intros HF; inversion HF; subst; constructor; tauto.
Qed.

Lemma ingested_entries (reqs : list Request) :
  Forall (fun r => accepted (body r) = true) reqs ->
  ingested reqs = entries reqs.
Proof.
  induction 1 as [|r reqs Hr _ IH]; [reflexivity|].
  unfold ingested, entries in *. simpl. rewrite Hr, IH. reflexivity.
Qed.

(** ** One entry and the session table *)

Lemma store_pair_sessions (db : DB) (ua : option string) (e : JValue) :
  sessions (store_pair db (ua, e)) =
  <[entry_key e := upserted ua e (sessions db !! entry_key e)]> (sessions db).
Proof.
  unfold store_pair, store_event, upsert_session, upserted. simpl.
  destruct (sessions db !! _); reflexivity.
Qed.

Lemma store_pair_same (db : DB) (ua : option string) (e : JValue) :
  sessions (store_pair db (ua, e)) !! entry_key e =
  Some (upserted ua e (sessions db !! entry_key e)).
Proof. rewrite store_pair_sessions. apply lookup_insert_eq. Qed.

Lemma store_pair_other (db : DB) (ua : option string) (e : JValue) (k : string) :
  entry_key e <> k ->
  sessions (store_pair db (ua, e)) !! k = sessions db !! k.
Proof. intros Hk. rewrite store_pair_sessions. by apply lookup_insert_ne. Qed.

Lemma store_pair_events (db : DB) (p : option string * JValue) :
  exists row, events (store_pair db p) = events db ++ [row].
Proof. eexists. reflexivity. Qed.

Lemma of_session_snoc (k : string) (l : list (option string * JValue))
    (p : option string * JValue) :
  of_session k (l ++ [p]) =
  of_session k l ++ (if String.eqb (entry_key p.2) k then [p] else []).
Proof. unfold of_session. rewrite List.filter_app. reflexivity. Qed.

Lemma of_session_cons (k : string) (l : list (option string * JValue))
    (p : option string * JValue) :
  of_session k (p :: l) =
  (if String.eqb (entry_key p.2) k then [p] else []) ++ of_session k l.
Proof. unfold of_session. simpl. destruct (String.eqb _ _); reflexivity. Qed.

(** ** Page views *)

Lemma pageview_increment_cases (e : JValue) :
  pageview_increment e = 0%Z \/ pageview_increment e = 1%Z.
Proof. unfold pageview_increment. destruct (is_pageview e); auto. Qed.

Lemma page_views_of_store_pair (db : DB) (p : option string * JValue) (k : string) :
  page_views_of (store_pair db p) k =
  (page_views_of db k +
   (if String.eqb (entry_key p.2) k then pageview_increment p.2 else 0))%Z.
Proof.
  destruct p as [ua e]. simpl. unfold page_views_of.
  destruct (String.eqb_spec (entry_key e) k) as [<-|Hne].
  - rewrite store_pair_same. unfold upserted.
    destruct (sessions db !! entry_key e); simpl; lia.
  - rewrite store_pair_other by assumption.
    destruct (sessions db !! k); lia.
Qed.

Lemma pageviews_cons (p : option string * JValue) (l : list (option string * JValue)) :
  Z.of_nat (pageviews (p :: l)) =
  (pageview_increment p.2 + Z.of_nat (pageviews l))%Z.
Proof.
  unfold pageviews, pageview_increment. simpl.
  destruct (is_pageview p.2); simpl; lia.
Qed.

Lemma page_views_of_fold (l : list (option string * JValue)) (db : DB) (k : string) :
  page_views_of (fold_left store_pair l db) k =
  (page_views_of db k + Z.of_nat (pageviews (of_session k l)))%Z.
Proof.
  revert db. induction l as [|p l IH]; intros db.
  - unfold pageviews. simpl. lia.
  - cbn [fold_left]. rewrite IH, page_views_of_store_pair, of_session_cons.
    destruct (String.eqb (entry_key p.2) k); simpl.
    + rewrite pageviews_cons. lia.
    + lia.
Qed.

(** A session row exists exactly when it existed before or an entry of
    the session was stored. *)
Lemma session_row_fold (l : list (option string * JValue)) (db : DB) (k : string) :
  sessions (fold_left store_pair l db) !! k = None <->
  sessions db !! k = None /\ of_session k l = [].
Proof.
  revert db. induction l as [|[ua e] l IH]; intros db; [simpl; tauto|].
  cbn [fold_left]. rewrite IH, of_session_cons. cbn [snd].
  destruct (String.eqb_spec (entry_key e) k) as [<-|Hne].
  - rewrite store_pair_same. split; [intros [? _]|intros [_ ?]]; discriminate.
  - rewrite store_pair_other by assumption. simpl. tauto.
Qed.

(** ** User agent *)

Lemma user_agent_store_pair (db : DB) (p : option string * JValue)
    (k : string) (s : Session) (u : string) :
  sessions db !! k = Some s -> user_agent s = Some u ->
  exists s', sessions (store_pair db p) !! k = Some s' /\ user_agent s' = Some u.
Proof.
  intros Hs Hu. destruct p as [ua e].
  destruct (String.eqb_spec (entry_key e) k) as [<-|Hne].
  - rewrite store_pair_same, Hs. eexists; split; [reflexivity|].
    simpl. rewrite Hu. reflexivity.
  - rewrite store_pair_other by assumption. eauto.
Qed.

Lemma user_agent_fold (l : list (option string * JValue)) (db : DB)
    (k : string) (s : Session) (u : string) :
  sessions db !! k = Some s -> user_agent s = Some u ->
  exists s', sessions (fold_left store_pair l db) !! k = Some s' /\
             user_agent s' = Some u.
Proof.
  revert db s. induction l as [|p l IH]; intros db s Hs Hu; simpl; [eauto|].
  destruct (user_agent_store_pair db p k s u Hs Hu) as (s1 & Hs1 & Hu1).
  eapply IH; eassumption.
Qed.

(** ** Start and end times *)

Lemma nonneg_rows_store_pair (db : DB) (p : option string * JValue) :
  nonneg_rows db -> nonneg_rows (store_pair db p).
Proof.
  intros Hdb k s. destruct p as [ua e].
  destruct (String.eqb_spec (entry_key e) k) as [<-|Hne].
  - rewrite store_pair_same. intros [= <-]. unfold upserted.
    pose proof (pageview_increment_cases e) as Hc.
    destruct (sessions db !! entry_key e) as [s0|] eqn:Hs0; simpl.
    + specialize (Hdb _ _ Hs0). lia.
    + lia.
  - rewrite store_pair_other by assumption. apply Hdb.
Qed.

Lemma nonneg_rows_fold (l : list (option string * JValue)) (db : DB) :
  nonneg_rows db -> nonneg_rows (fold_left store_pair l db).
Proof.
  revert db. induction l as [|p l IH]; intros db Hdb; simpl; [assumption|].
  apply IH, nonneg_rows_store_pair, Hdb.
Qed.

Lemma times_fold (l : list (option string * JValue)) (db : DB) (k : string) :
  sessions db !! k = None ->
  match of_session k l with
  | [] => sessions (fold_left store_pair l db) !! k = None
  | first :: rest =>
      exists s, sessions (fold_left store_pair l db) !! k = Some s /\
                start_time s = entry_time first.2 /\
                end_time s = last_time first rest
  end.
Proof.
  intros Hnone. induction l as [|[ua e] l IH] using rev_ind.
  - simpl. assumption.
  - rewrite fold_left_app, of_session_snoc. cbn [fold_left snd].
    destruct (String.eqb_spec (entry_key e) k) as [<-|Hne].
    + rewrite store_pair_same.
      destruct (of_session (entry_key e) l) as [|first rest] eqn:Hl; simpl.
      * rewrite IH. eexists; split; [reflexivity|]. split; reflexivity.
      * destruct IH as (s & Hs & Hst & Hen). rewrite Hs.
        eexists; split; [reflexivity|]. simpl. split; [assumption|].
        unfold last_time. destruct (rest ++ [(ua, e)]) eqn:Hr.
        { destruct rest; discriminate. }
        rewrite <- Hr, List.last_last. reflexivity.
    + rewrite store_pair_other by assumption. rewrite app_nil_r. exact IH.
Qed.

(** ** The claims about the ingestion service *)

(** C1 (the code departs from it). The claim: a request is answered with
    400 exactly when the body is not an array, is empty, has more than 100
    entries or has an entry without a non-empty [session_id], [event_type]
    or [url]. A [null] entry is such an entry, yet a batch made of one
    [null] is answered with 500: destructuring [null] throws before the
    validation is reached, and the handler's [catch] block answers. *)
Theorem post_events_null_entry (db : DB) (ua : option string) :
  post_events db (JArr [JNull]) ua =
  (respond 500 (Error "Internal server error"), db) /\
  lacks_required JNull = true.
Proof. split; reflexivity. Qed.

(** What holds of the claim: on bodies without a [null] entry, and when
    the database refuses none of the entries (the claim's absence of
    storage failures), the response is 400 exactly in the cases the claim
    lists, a 400 leaves the database untouched, and a batch of 1 to 100
    complete entries is answered with 200 and its length. *)
Lemma post_events_not_array (db : DB) (b : JValue) (ua : option string) :
  (forall evs, b <> JArr evs) ->
  post_events db b ua =
  (respond 400 (Error "Invalid payload, expected array of events"), db).
Proof. intros Hb. destruct b; try reflexivity. exfalso. eapply Hb. reflexivity. Qed.

Lemma find_bad_without_null (evs : list JValue) :
  Forall (fun e => is_null e = false) evs ->
  Forall (fun e => db_refuses e = false) evs ->
  match List.find (fun e => negb (entry_ok e)) evs with
  | Some bad => is_null bad = false /\ lacks_required bad = true /\
                Exists (fun e => lacks_required e = true) evs
  | None => Forall (fun e => lacks_required e = false) evs
  end.
Proof.
  induction 1 as [|e evs Hn _ IH]; intros Hdb; simpl; [constructor|].
  inversion Hdb as [|? ? Hr Hdb']; subst. specialize (IH Hdb').
  unfold entry_ok at 1. rewrite Hn, Hr. simpl.
  destruct (lacks_required e) eqn:Hl; simpl.
  - split; [assumption|]. split; [assumption|]. constructor. assumption.
  - destruct (List.find _ evs) as [bad|].
    + destruct IH as (Hb & Hlb & Hex). split; [assumption|].
      split; [assumption|]. apply Exists_cons_tl, Hex.
    + constructor; assumption.
Qed.

Lemma post_events_without_null (db : DB) (evs : list JValue) (ua : option string) :
  Forall (fun e => is_null e = false) evs ->
  Forall (fun e => db_refuses e = false) evs ->
  (status (post_events db (JArr evs) ua).1 = 400%nat <->
   evs = [] \/ (100 < length evs)%nat \/
   Exists (fun e => lacks_required e = true) evs) /\
  (status (post_events db (JArr evs) ua).1 = 400%nat ->
   (post_events db (JArr evs) ua).2 = db) /\
  ((1 <= length evs <= 100)%nat ->
   Forall (fun e => lacks_required e = false) evs ->
   (post_events db (JArr evs) ua).1 =
   respond 200 (Ingested "Events ingested successfully" (length evs))).
Proof.
  intros Hnn Hdb. pose proof (find_bad_without_null evs Hnn Hdb) as Hfind.
  unfold post_events.
  pose proof (ingest_loop_exit ua evs (begin db)) as Hexit.
  destruct (ingest_loop ua evs (begin db)) as [ex tx]. simpl in Hexit. subst ex.
  destruct (Nat.eqb_spec (length evs) 0) as [H0|H0].
  { simpl. split; [|split]; try tauto; try lia.
    split; [intros _|reflexivity]. left. destruct evs; [reflexivity|discriminate]. }
  destruct (Nat.ltb_spec 100 (length evs)) as [Hgt|Hle].
  { simpl. split; [|split]; try tauto; try lia. }
  destruct (List.find (fun e => negb (entry_ok e)) evs) as [bad|] eqn:Hf.
  - destruct Hfind as (Hbad & Hlb & Hex).
    replace (exit_at (Some bad)) with Rejected
      by (simpl; rewrite Hbad, Hlb; reflexivity).
    simpl. split; [|split]; try tauto.
    intros _ Hall. exfalso. apply Exists_exists in Hex as (e & Hin & He).
    rewrite Forall_forall in Hall. apply Hall in Hin. congruence.
  - simpl. split; [|split]; try discriminate; try reflexivity.
    split; [discriminate|]. intros [->|[Hgt|Hex]]; [simpl in H0; lia|lia|].
    exfalso. apply Exists_exists in Hex as (e & Hin & He).
    rewrite Forall_forall in Hfind. apply Hfind in Hin. congruence.
Qed.

(** C4. Over any sequence of successfully ingested batches, starting
    from a database without a row for the session: each stored entry adds
    1 to the [page_views] of its session when its [event_type] is
    ['pageview'] and 0 otherwise; the row exists as soon as one entry of
    the session was ingested, and its [page_views] is the number of
    ['pageview'] entries of that session over all the batches. *)
Theorem page_views_count_pageviews (reqs : list Request) (db : DB) (k : string) :
  Forall (fun resp => status resp = 200%nat) (serve db reqs).2 ->
  sessions db !! k = None ->
  (forall ua e tx,
     page_views_of (store_event ua (fields_of e) tx) (entry_key e) =
     (page_views_of tx (entry_key e) + (if is_pageview e then 1 else 0))%Z) /\
  (of_session k (entries reqs) = [] -> sessions (serve db reqs).1 !! k = None) /\
  (of_session k (entries reqs) <> [] ->
   exists s, sessions (serve db reqs).1 !! k = Some s /\
             page_views s = Z.of_nat (pageviews (of_session k (entries reqs)))).
Proof.
  intros Hok Hnone. apply serve_responses in Hok.
  rewrite serve_ingested, (ingested_entries reqs Hok).
  split; [|split].
  - intros ua e tx.
    change (store_event ua (fields_of e) tx) with (store_pair tx (ua, e)).
    rewrite page_views_of_store_pair. simpl. rewrite String.eqb_refl. reflexivity.
  - intros Hnil. apply session_row_fold. split; assumption.
  - intros Hsome.
    pose proof (page_views_of_fold (entries reqs) db k) as Hpv.
    unfold page_views_of in Hpv. rewrite Hnone in Hpv.
    destruct (sessions (fold_left store_pair (entries reqs) db) !! k) as [s|] eqn:Hs.
    + exists s. split; [reflexivity|]. lia.
    + apply session_row_fold in Hs. tauto.
Qed.

(** C8. Once the row of a session has a non-null [user_agent], no
    sequence of further requests changes it, whatever [User-Agent] header
    and whatever body they carry. *)
Theorem user_agent_first_write_wins (reqs : list Request) (db : DB)
    (k : string) (s : Session) (u : string) :
  sessions db !! k = Some s ->
  user_agent s = Some u ->
  exists s', sessions (serve db reqs).1 !! k = Some s' /\
             user_agent s' = Some u.
Proof.
  intros Hs Hu. rewrite serve_ingested. eapply user_agent_fold; eassumption.
Qed.

(** C9, as amended. In every database reached from the empty one by a
    sequence of requests, every session row has [page_views >= 0]; its
    [start_time] is the timestamp of the first entry ingested for the
    session and its [end_time] is null after one entry and the timestamp
    of the last ingested entry afterwards. So [end_time >= start_time]
    holds when the last ingested entry is not stamped earlier than the
    first one. *)
Theorem session_row_invariant (reqs : list Request) (k : string) (s : Session) :
  sessions (serve empty_db reqs).1 !! k = Some s ->
  (0 <= page_views s)%Z /\
  exists first rest,
    of_session k (ingested reqs) = first :: rest /\
    start_time s = entry_time first.2 /\
    end_time s = last_time first rest /\
    (time_le (entry_time first.2) (entry_time (List.last rest first).2) ->
     time_le (start_time s) (end_time s)).
Proof.
  rewrite serve_ingested. intros Hs. split.
  - eapply (nonneg_rows_fold (ingested reqs) empty_db); [|exact Hs].
    intros k' s' Hk'. simpl in Hk'. rewrite lookup_empty in Hk'. discriminate.
  - pose proof (times_fold (ingested reqs) empty_db k (lookup_empty k)) as Ht.
    destruct (of_session k (ingested reqs)) as [|first rest].
    + congruence.
    + destruct Ht as (s' & Hs' & Hst & Hen). rewrite Hs in Hs'.
      injection Hs' as <-. exists first, rest.
      repeat split; try assumption.
      intros Hle. rewrite Hst, Hen. unfold last_time.
      destruct rest; [intros a b _ Hb; discriminate | exact Hle].
Qed.

(** C10, as amended. An entry with a non-empty [session_id] and [url]
    whose values the database accepts for its columns is accepted with
    any non-empty string as [event_type]: the batch is answered with
    200, the row stored in [events] carries the [event_type] as sent, a
    missing [referrer] is stored as [null] and a missing [metadata] as
    the empty object. The session row depends on the [event_type] only
    through its being ['pageview'] or not. An entry that has the three
    fields and that the database refuses is answered with 500, and
    nothing is stored. *)
Theorem event_type_not_restricted (db : DB) (ua : option string)
    (e : JValue) (t : string) :
  prop e "event_type" = Some (JStr t) ->
  t <> "" ->
  truthy (prop e "session_id") = true ->
  truthy (prop e "url") = true ->
  (db_refuses e = true ->
   post_events db (JArr [e]) ua =
     (respond 500 (Error "Internal server error"), db)) /\
  (db_refuses e = false ->
  (post_events db (JArr [e]) ua).1 =
    respond 200 (Ingested "Events ingested successfully" 1) /\
  (exists row,
     events (post_events db (JArr [e]) ua).2 = events db ++ [row] /\
     row_event_type row = Some (JStr t) /\
     row_session_id row = prop e "session_id" /\
     row_url row = prop e "url" /\
     (prop e "referrer" = None -> row_referrer row = Some JNull) /\
     (prop e "metadata" = None -> row_metadata row = Some (JObj []))) /\
  (forall e' t',
     prop e' "event_type" = Some (JStr t') ->
     t' <> "" ->
     prop e' "session_id" = prop e "session_id" ->
     truthy (prop e' "url") = true ->
     prop e' "timestamp" = prop e "timestamp" ->
     String.eqb t' "pageview" = String.eqb t "pageview" ->
     db_refuses e' = false ->
     sessions (post_events db (JArr [e']) ua).2 =
     sessions (post_events db (JArr [e]) ua).2)).
Proof.
  intros Hty Ht Hsid Hurl.
  assert (Hval : forall e' t', prop e' "event_type" = Some (JStr t') -> t' <> "" ->
            truthy (prop e' "session_id") = true -> truthy (prop e' "url") = true ->
            is_null e' = false /\ lacks_required e' = false).
  { intros e' t' Hty' Ht' Hsid' Hurl'. unfold lacks_required, lacks.
    rewrite Hsid', Hurl', Hty'. simpl.
    apply String.eqb_neq in Ht'. rewrite Ht'. simpl.
    split; [|reflexivity]. destruct e'; try reflexivity. discriminate. }
  assert (Hacc : forall e' t', prop e' "event_type" = Some (JStr t') -> t' <> "" ->
            truthy (prop e' "session_id") = true -> truthy (prop e' "url") = true ->
            db_refuses e' = false -> accepted (JArr [e']) = true).
  { intros e' t' Hty' Ht' Hsid' Hurl' Hr'.
    destruct (Hval e' t' Hty' Ht' Hsid' Hurl') as [Hn' Hl'].
    simpl. rewrite andb_true_r. apply entry_ok_cases. auto. }
  split.
  { intros Hr. destruct (Hval e t Hty Ht Hsid Hurl) as [Hn Hl].
    unfold post_events. cbn [length Nat.eqb Nat.ltb Nat.leb ingest_loop].
    rewrite (destructure_fields e Hn), missing_required_fields, Hl.
    unfold db_refuses in Hr. rewrite Hr. reflexivity. }
  intros Hr.
  pose proof (post_events_accepted db (JArr [e]) ua (Hacc e t Hty Ht Hsid Hurl Hr))
    as He.
  split; [rewrite He; reflexivity|]. split.
  - rewrite He. eexists. split; [reflexivity|]. simpl.
    repeat split; try assumption; try reflexivity.
    + intros ->. reflexivity.
    + intros ->. reflexivity.
  - intros e' t' Hty' Ht' Hs' Hu' Hts' Hpv Hr'.
    rewrite He, (post_events_accepted db (JArr [e']) ua).
    + simpl. unfold store_event, upsert_session. simpl.
      rewrite Hty, Hty', Hs', Hts'. simpl. rewrite Hpv. reflexivity.
    + apply (Hacc e' t' Hty' Ht'); [congruence|assumption|assumption].
Qed.

End Facts.

(** ** Instances of the theorems above *)

Lemma page_views_count_pageviews_witness :
  Forall (fun resp => status resp = 200%nat)
    (serve (C := Samples.codec) empty_db Samples.two_batches).2 /\
  sessions empty_db !! "sess_a" = None /\
  exists s,
    sessions (serve (C := Samples.codec) empty_db Samples.two_batches).1 !! "sess_a"
      = Some s /\
    page_views s = 2%Z.
Proof.
  assert (H1 : Forall (fun resp => status resp = 200%nat)
                 (serve (C := Samples.codec) empty_db Samples.two_batches).2)
    by (vm_compute; repeat constructor).
  assert (H2 : sessions empty_db !! "sess_a" = None) by reflexivity.
  split; [exact H1|]. split; [exact H2|].
  destruct (page_views_count_pageviews (C := Samples.codec)
              Samples.two_batches empty_db "sess_a" H1 H2) as (_ & _ & H3).
  apply H3. vm_compute. discriminate.
Defined.

Lemma user_agent_first_write_wins_witness :
  exists s,
    sessions (serve (C := Samples.codec) empty_db Samples.two_batches).1 !! "sess_a"
      = Some s /\
    user_agent s = Some "Mozilla/5.0".
Proof.
  set (db1 := (serve (C := Samples.codec) empty_db (take 1 Samples.two_batches)).1).
  set (s1 := {| start_time := Some 20250101000001000%Z;
                end_time := Some 20250101000002000%Z;
                page_views := 1; user_agent := Some "Mozilla/5.0" |}).
  assert (H1 : sessions db1 !! "sess_a" = Some s1) by (vm_compute; reflexivity).
  assert (H2 : user_agent s1 = Some "Mozilla/5.0") by reflexivity.
  exact (user_agent_first_write_wins (C := Samples.codec)
           (drop 1 Samples.two_batches) db1 "sess_a" s1 "Mozilla/5.0" H1 H2).
Defined.

(** C9, the claim as stated fails: this batch is ingested, and the
    session row it leaves has an [end_time] five seconds before its
    [start_time]. *)
Lemma end_time_before_start_time :
  Forall (fun resp => status resp = 200%nat)
    (serve (C := Samples.codec) empty_db Samples.out_of_order).2 /\
  sessions (serve (C := Samples.codec) empty_db Samples.out_of_order).1 !! "sess_a" =
    Some {| start_time := Some 20250101000010000%Z;
            end_time := Some 20250101000005000%Z;
            page_views := 1;
            user_agent := Some "Mozilla/5.0" |} /\
  ~ (forall s a b,
       sessions (serve (C := Samples.codec) empty_db Samples.out_of_order).1
         !! "sess_a" = Some s ->
       start_time s = Some a -> end_time s = Some b -> (a <= b)%Z).
Proof.
  split; [vm_compute; repeat constructor|].
  assert (Hrow : sessions (serve (C := Samples.codec) empty_db Samples.out_of_order).1
                   !! "sess_a" =
                 Some {| start_time := Some 20250101000010000%Z;
                         end_time := Some 20250101000005000%Z;
                         page_views := 1;
                         user_agent := Some "Mozilla/5.0" |})
    by (vm_compute; reflexivity).
  split; [exact Hrow|].
  intros Hclaim. specialize (Hclaim _ _ _ Hrow eq_refl eq_refl). lia.
Qed.

Lemma session_row_invariant_witness :
  exists s,
    sessions (serve (C := Samples.codec) empty_db Samples.two_batches).1 !! "sess_a"
      = Some s /\
    (0 <= page_views s)%Z /\
    start_time s = Some 20250101000001000%Z /\
    end_time s = Some 20250101000003000%Z.
Proof.
  set (s := {| start_time := Some 20250101000001000%Z;
               end_time := Some 20250101000003000%Z;
               page_views := 2; user_agent := Some "Mozilla/5.0" |}).
  assert (H1 : sessions (serve (C := Samples.codec) empty_db Samples.two_batches).1
                 !! "sess_a" = Some s) by (vm_compute; reflexivity).
  destruct (session_row_invariant (C := Samples.codec)
              Samples.two_batches "sess_a" s H1) as (Hpv & _).
  exists s. split; [exact H1|]. split; [exact Hpv|]. split; reflexivity.
Defined.

(** C10, the claim as stated fails: this entry has a [session_id], a
    [url] and a non-empty [event_type], and is answered with 500 and not
    stored, because its [timestamp] is not one. *)
Lemma unreadable_timestamp_refused :
  prop Samples.unstamped_entry "event_type" = Some (JStr "scroll") /\
  truthy (prop Samples.unstamped_entry "session_id") = true /\
  truthy (prop Samples.unstamped_entry "url") = true /\
  post_events (C := Samples.codec) empty_db (JArr [Samples.unstamped_entry]) None =
    (respond 500 (Error "Internal server error"), empty_db) /\
  ~ (status (post_events (C := Samples.codec) empty_db
               (JArr [Samples.unstamped_entry]) None).1 = 200%nat).
Proof.
  split; [reflexivity|]. split; [reflexivity|]. split; [reflexivity|].
  split; [vm_compute; reflexivity|]. vm_compute. discriminate.
Qed.

Lemma event_type_not_restricted_witness :
  db_refuses (C := Samples.codec) Samples.bare_entry = false /\
  (post_events (C := Samples.codec) empty_db (JArr [Samples.bare_entry]) None).1 =
    respond 200 (Ingested "Events ingested successfully" 1) /\
  exists row,
    events (post_events (C := Samples.codec) empty_db
              (JArr [Samples.bare_entry]) None).2 = [row] /\
    row_event_type row = Some (JStr "scroll") /\
    row_referrer row = Some JNull /\
    row_metadata row = Some (JObj []).
Proof.
  assert (Hne : "scroll" <> "") by discriminate.
  assert (Hr : db_refuses (C := Samples.codec) Samples.bare_entry = false)
    by reflexivity.
  split; [exact Hr|].
  destruct (event_type_not_restricted (C := Samples.codec) empty_db None
              Samples.bare_entry "scroll" eq_refl Hne eq_refl eq_refl)
    as (_ & Hok).
  destruct (Hok Hr) as (H200 & (row & Hev & Hty & _ & _ & Href & Hmd) & _).
  split; [exact H200|].
  exists row. split; [exact Hev|]. split; [exact Hty|].
  split; [apply Href; reflexivity|apply Hmd; reflexivity].
Defined.

End ServerFacts.

(* ===================================================================== *)
(** * The tracker: facts *)
(* ===================================================================== *)

Module PixelFacts.
Import Pixel.

(** ** slice(-n) *)

Lemma slice_last_length (n : nat) (l : list Event) :
  length (slice_last n l) = Nat.min n (length l).
Proof. unfold slice_last. rewrite length_skipn. lia. Qed.

Lemma slice_last_suffix (n : nat) (l : list Event) :
  firstn (length l - n) l ++ slice_last n l = l.
Proof. unfold slice_last. apply firstn_skipn. Qed.

Lemma slice_last_short (n : nat) (l : list Event) :
  (length l <= n)%nat -> slice_last n l = l.
Proof.
  intros Hle. unfold slice_last.
  replace (length l - n)%nat with 0%nat by lia. reflexivity.
Qed.

(** ** flush and track *)

Lemma flush_idle (sync : bool) (w : World) :
  queue w <> [] -> isFlushing w = false ->
  flush sync w =
  set_inflight (inflight w ++ [{| eventsToSend := queue w; synchronous := sync |}])
    (set_queue [] (set_isFlushing true w)).
Proof.
  intros Hq Hf. unfold flush. rewrite Hf.
  destruct (queue w) eqn:Hqw; [congruence|]. simpl. rewrite Hqw. reflexivity.
Qed.

Lemma flush_busy (sync : bool) (w : World) :
  isFlushing w = true -> flush sync w = w.
Proof. intros Hf. unfold flush. rewrite Hf, orb_true_r. reflexivity. Qed.

Lemma flush_empty (sync : bool) (w : World) :
  queue w = [] -> flush sync w = w.
Proof. intros Hq. unfold flush. rewrite Hq. reflexivity. Qed.

(** While the latch is set, [track] only appends. *)
Lemma track_busy (ty : string) (md : Value) (pg : Page) (w : World) :
  isFlushing w = true ->
  track ty md pg w = set_queue (queue w ++ [make_event w ty md pg]) w.
Proof.
  intros Hf. unfold track. rewrite (flush_busy false w Hf).
  destruct (maxQueueSize <=? length (queue w))%nat; reflexivity.
Qed.

Lemma track_all_busy (calls : list (string * Value * Page)) (w : World) :
  isFlushing w = true ->
  track_all calls w =
  set_queue (queue w ++ map (fun c => make_event w c.1.1 c.1.2 c.2) calls) w.
Proof.
  revert w. induction calls as [|c calls IH]; intros w Hf.
  - simpl. rewrite app_nil_r. destruct w; reflexivity.
  - unfold track_all in *. cbn [fold_left]. rewrite track_busy by assumption.
    rewrite IH by assumption. simpl. rewrite <- app_assoc. reflexivity.
Qed.

(** The retry branch of the [catch] block. *)
Lemma settle_retry (spill : list Event -> World -> World) (r : Request)
    (w : World) :
  synchronous r = false ->
  (retryCount w < maxRetries)%nat ->
  settle spill r Failed w =
  set_isFlushing false
    (setTimeout RetryFlush (retryDelay * S (retryCount w))
       (set_queue (eventsToSend r ++ queue w)
          (set_retryCount (S (retryCount w)) w))).
Proof.
  intros Hsync Hlt. unfold settle. rewrite Hsync.
  apply Nat.ltb_lt in Hlt. rewrite Hlt. reflexivity.
Qed.

(** C2. When a flush with [synchronous = false] fails while the retry
    counter is below 3, its snapshot goes back in front of everything
    the live queue holds at that moment (the events tracked while the
    request was in flight), the counter goes up by one, and a retry is
    scheduled after [retryDelay] times the new counter: 1000, 2000 or
    3000 ms. Nothing is written to the fallback store. *)
Theorem failed_flush_requeues_at_front (spill : list Event -> World -> World)
    (r : Request) (w : World) :
  synchronous r = false ->
  (retryCount w < maxRetries)%nat ->
  let w' := settle spill r Failed w in
  queue w' = eventsToSend r ++ queue w /\
  retryCount w' = S (retryCount w) /\
  timers w' = timers w ++
    [{| delay := retryDelay * S (retryCount w); callback := RetryFlush |}] /\
  ((retryDelay * S (retryCount w) = 1000 /\ retryCount w = 0) \/
   (retryDelay * S (retryCount w) = 2000 /\ retryCount w = 1) \/
   (retryDelay * S (retryCount w) = 3000 /\ retryCount w = 2))%nat /\
  localStorage w' = localStorage w /\ gmStorage w' = gmStorage w.
Proof.
  intros Hsync Hlt w'. subst w'. rewrite settle_retry by assumption.
  repeat split; try reflexivity.
  unfold maxRetries, retryDelay in *. lia.
Qed.

(** The same, from the start of the flush: the events tracked between the
    snapshot and the failure end up behind the snapshot. *)
Lemma tracked_in_flight_stay_behind (spill : list Event -> World -> World)
    (calls : list (string * Value * Page)) (w : World) :
  queue w <> [] -> isFlushing w = false -> (retryCount w < maxRetries)%nat ->
  let r := {| eventsToSend := queue w; synchronous := false |} in
  let w1 := track_all calls (flush false w) in
  inflight w1 = inflight w ++ [r] /\
  queue (settle spill r Failed w1) =
  queue w ++ map (fun c => make_event w c.1.1 c.1.2 c.2) calls.
Proof.
  intros Hq Hf Hlt r w1. subst w1.
  rewrite (flush_idle false w Hq Hf), track_all_busy by reflexivity.
  split; [reflexivity|].
  rewrite settle_retry by (try reflexivity; exact Hlt). reflexivity.
Qed.

(** The branch of the [catch] block that gives the batch up. *)
Lemma settle_give_up (spill : list Event -> World -> World) (r : Request)
    (w : World) :
  synchronous r = true \/ (maxRetries <= retryCount w)%nat ->
  settle spill r Failed w = set_isFlushing false (spill (eventsToSend r) w).
Proof.
  intros Hc. unfold settle.
  destruct Hc as [Hs|Hge].
  - rewrite Hs. reflexivity.
  - apply Nat.ltb_ge in Hge. rewrite Hge, andb_false_r. reflexivity.
Qed.

(** C3, as amended. In [pixel.js], with [localStorage] at hand: a flush
    that fails when it is synchronous or when the retry counter has
    reached 3 writes its batch behind the stored ones and keeps the last
    100 of them (the oldest are dropped first), does not put it back in
    the live queue and schedules no retry. From a counter at 0 this is
    what the fourth failure in a row does: the flush and its three
    retries. *)
Theorem exhausted_batch_spilled (r : Request) (w : World) (item : FailedItem) :
  localStorage w = Some item ->
  (synchronous r = true \/ (maxRetries <= retryCount w)%nat ->
   let w' := PixelJs.settle r Failed w in
   let kept := slice_last 100 (read_failed item ++ eventsToSend r) in
   localStorage w' = Some (Some kept) /\
   (length kept <= 100)%nat /\
   (exists dropped, read_failed item ++ eventsToSend r = dropped ++ kept) /\
   queue w' = queue w /\ timers w' = timers w /\
   retryCount w' = retryCount w /\ isFlushing w' = false) /\
  (queue w <> [] -> isFlushing w = false -> retryCount w = 0%nat ->
   timers w = [] -> inflight w = [] ->
   let w' := run PixelJs.spill four_failures w in
   localStorage w' = Some (Some (slice_last 100 (read_failed item ++ queue w))) /\
   queue w' = [] /\ timers w' = [] /\ inflight w' = []).
Proof.
  intros Hls. split.
  - intros Hc w' kept. subst w'. unfold PixelJs.settle.
    rewrite settle_give_up by assumption.
    unfold PixelJs.spill. rewrite Hls. simpl.
    split; [reflexivity|]. split.
    { subst kept. rewrite slice_last_length. lia. }
    split.
    { eexists. symmetry. apply slice_last_suffix. }
    repeat split; reflexivity.
  - intros Hq Hf Hrc Ht Hin w'. subst w'.
    destruct w as [q sid rc fl ls gm ts infl].
    cbn [queue isFlushing retryCount timers inflight localStorage] in *. subst.
    destruct q as [|e q]; [congruence|].
    cbn -[slice_last read_failed]. rewrite !app_nil_r.
    repeat split; reflexivity.
Qed.

(** C3, the claim as stated fails: after three failures in a row the
    batch is back in the live queue, nothing was written to the store,
    and the third retry is pending. *)
Lemma three_failures_do_not_spill :
  queue Samples.first_view <> [] /\
  queue (run PixelJs.spill Samples.three_failures Samples.first_view) =
    queue Samples.first_view /\
  localStorage (run PixelJs.spill Samples.three_failures Samples.first_view) =
    Some None /\
  timers (run PixelJs.spill Samples.three_failures Samples.first_view) =
    [{| delay := 3000; callback := RetryFlush |}] /\
  retryCount (run PixelJs.spill Samples.three_failures Samples.first_view) = 3%nat /\
  ~ (localStorage (run PixelJs.spill Samples.three_failures Samples.first_view) =
       Some (Some (slice_last 100 (queue Samples.first_view))) /\
     queue (run PixelJs.spill Samples.three_failures Samples.first_view) = [] /\
     timers (run PixelJs.spill Samples.three_failures Samples.first_view) = []).
Proof.
  repeat split; try reflexivity; try discriminate.
  intros (Hstore & _). discriminate Hstore.
Qed.

(** In the userscript of [part_002] the batch given up is stored
    nowhere. *)
Lemma userscript_ls_drops_batch (r : Request) (w : World) :
  synchronous r = true \/ (maxRetries <= retryCount w)%nat ->
  UserscriptLS.settle r Failed w = set_isFlushing false w.
Proof. intros Hc. unfold UserscriptLS.settle. by rewrite settle_give_up. Qed.

(** The userscript of [part_001] spills like [pixel.js], into the
    Greasemonkey store when it has one. *)
Lemma userscript_gm_spills (r : Request) (w : World) (item : FailedItem) :
  synchronous r = true \/ (maxRetries <= retryCount w)%nat ->
  gmStorage w = Some item ->
  gmStorage (UserscriptGM.settle r Failed w) =
  Some (Some (slice_last 100 (read_failed item ++ eventsToSend r))).
Proof.
  intros Hc Hgm. unfold UserscriptGM.settle. rewrite settle_give_up by assumption.
  unfold UserscriptGM.storeFailedEvents. rewrite Hgm. reflexivity.
Qed.

(** C5, as amended. When [track] finds 50 or more events queued and the
    latch [isFlushing] is not set, it starts a flush of the whole queue
    first, and the new event is alone in the queue afterwards. When the
    latch is set, the call of [flush] does nothing and the new event
    joins the full queue. *)
Theorem full_queue_forces_flush (eventType : string) (md : Value) (pg : Page)
    (w : World) :
  (maxQueueSize <= length (queue w))%nat ->
  let w' := track eventType md pg w in
  (isFlushing w = false ->
   queue w' = [make_event w eventType md pg] /\
   inflight w' = inflight w ++ [{| eventsToSend := queue w; synchronous := false |}] /\
   isFlushing w' = true) /\
  (isFlushing w = true ->
   queue w' = queue w ++ [make_event w eventType md pg] /\
   inflight w' = inflight w).
Proof.
  intros Hfull w'. subst w'. split.
  - intros Hf. unfold track.
    apply Nat.leb_le in Hfull as Hb. rewrite Hb.
    rewrite flush_idle; [repeat split; reflexivity| |assumption].
    intros Hnil. rewrite Hnil in Hfull. unfold maxQueueSize in Hfull.
    simpl in Hfull. lia.
  - intros Hf. rewrite track_busy by assumption. split; reflexivity.
Qed.

(** C5, the claim as stated fails: with a flush in flight, the latch
    set and 50 events queued, [track] starts no flush and the queue
    grows to 51. *)
Lemma full_queue_while_flushing :
  isFlushing Samples.busy = true /\
  length (queue Samples.busy) = 50%nat /\
  length (queue (track "click" None Samples.page Samples.busy)) = 51%nat /\
  inflight (track "click" None Samples.page Samples.busy) = inflight Samples.busy /\
  queue (track "click" None Samples.page Samples.busy) =
    queue Samples.busy ++ [make_event Samples.busy "click" None Samples.page] /\
  ~ (queue (track "click" None Samples.page Samples.busy) =
       [make_event Samples.busy "click" None Samples.page] /\
     inflight (track "click" None Samples.page Samples.busy) =
       inflight Samples.busy ++
       [{| eventsToSend := queue Samples.busy; synchronous := false |}]).
Proof.
  repeat split; try (vm_compute; reflexivity).
  intros (Hq & _). apply (f_equal (@length Event)) in Hq.
  vm_compute in Hq. discriminate.
Qed.

(** The latch is not the same as a request being in flight. A retry
    timer that fires while the request of a later flush is in flight
    releases the latch; with 50 events tracked meanwhile, the next
    [track] starts a second request beside the first. *)
Lemma latch_released_in_flight :
  isFlushing Samples.overlapping = false /\
  length (inflight Samples.overlapping) = 1%nat /\
  length (queue Samples.overlapping) = 50%nat /\
  map (fun r => length (eventsToSend r))
    (inflight (track "click" None Samples.page Samples.overlapping)) =
    [1%nat; 50%nat] /\
  length (queue (track "click" None Samples.page Samples.overlapping)) = 1%nat.
Proof. repeat split; vm_compute; reflexivity. Qed.

(** ** Session ids *)

Import UserscriptLS.

Lemma digit36_value_digit36 (d : N) :
  (d < 36)%N -> digit36_value (digit36 d) = d.
Proof.
  intros Hd. rewrite <- (N2Nat.id d).
  assert (Hk : (N.to_nat d < 36)%nat) by lia.
  revert Hk. generalize (N.to_nat d). clear d Hd. intros k Hk.
  do 36 (destruct k as [|k]; [reflexivity|]). lia.
Qed.

Lemma base36_value_digits36 (fuel : nat) (n : N) (acc : string) :
  (n < 36 ^ N.of_nat fuel)%N ->
  base36_value (digits36 fuel n acc) 0 = base36_value acc n.
Proof.
  revert n acc. induction fuel as [|fuel IH]; intros n acc Hn.
  - simpl in *. replace n with 0%N by lia. reflexivity.
  - cbn [digits36].
    assert (Hstep : base36_value (String (digit36 (n mod 36)) acc) (n / 36) =
                    base36_value acc n).
    { cbn [base36_value]. rewrite digit36_value_digit36 by (apply N.mod_lt; lia).
      f_equal. rewrite (N.div_mod n 36) at 3 by lia. reflexivity. }
    destruct (N.eqb_spec (n / 36) 0) as [Hz|Hnz].
    + rewrite <- Hstep, Hz. reflexivity.
    + rewrite IH; [exact Hstep|].
      rewrite Nat2N.inj_succ, N.pow_succ_r' in Hn.
      apply N.Div0.div_lt_upper_bound. lia.
Qed.

(** [to_base36] writes the number it is given: reading its digits back
    in base 36 returns the number. *)
Lemma base36_value_to_base36 (z : Z) :
  (0 <= z)%Z -> base36_value (to_base36 z) 0 = Z.to_N z.
Proof.
  intros Hz. unfold to_base36.
  destruct (Z.ltb_spec z 0) as [Hneg|_]; [lia|].
  rewrite Z.abs_eq by assumption.
  rewrite base36_value_digits36; [reflexivity|].
  set (n := Z.to_N z).
  rewrite Nat2N.inj_succ, N2Nat.id.
  destruct (N.eq_dec n 0%N) as [Hn0|Hn0]; [rewrite Hn0; reflexivity|].
  assert (Hlog : (n < 2 ^ N.succ (N.log2 n))%N) by (apply N.log2_spec; lia).
  eapply N.lt_le_trans; [exact Hlog|].
  apply N.pow_le_mono_l. lia.
Qed.

Lemma length_append (s1 s2 : string) :
  String.length (s1 +:+ s2) = (String.length s1 + String.length s2)%nat.
Proof. induction s1 as [|c s1 IH]; simpl; [reflexivity|]. rewrite IH. reflexivity. Qed.

Lemma length_substring_le (n m : nat) (s : string) :
  (String.length (substring n m s) <= m)%nat.
Proof.
  revert n m. induction s as [|c s IH]; intros n m.
  - destruct n, m; simpl; lia.
  - destruct n as [|n].
    + destruct m as [|m]; simpl; [lia|]. specialize (IH 0%nat m). lia.
    + simpl. apply IH.
Qed.

Lemma length_substring_full (n m : nat) (s : string) :
  (n + m <= String.length s)%nat ->
  String.length (substring n m s) = m.
Proof.
  revert n m. induction s as [|c s IH]; intros n m Hlen.
  - simpl in Hlen. destruct n, m; simpl; lia.
  - destruct n as [|n].
    + destruct m as [|m]; simpl; [reflexivity|].
      rewrite (IH 0%nat m); [reflexivity|simpl in *; lia].
    + simpl. apply IH. simpl in Hlen. lia.
Qed.

(** C6, as amended. With [localStorage] at hand: a stored record whose
    [lastActivity] is less than 30 minutes old gets its [lastActivity]
    set to the current time and its id is returned; in every other case
    (nothing stored, a record that does not parse, a [lastActivity] of 30
    minutes or more) a new id is made, stored with the current time and
    returned. The new id is ["sess_"], then characters 3 to 11 of the
    base-36 rendering of a random number, then the current time in base
    36; the middle part has 9 characters when the rendering has at least
    9 digits after ["0."], and fewer otherwise. *)
Theorem session_reused_or_minted (r : Readings) (w : Window)
    (stored : option Item) :
  session_store w = Some stored ->
  (forall d,
     stored = Some (Parsed d) ->
     (now_check r - last_activity_or_0 d < sessionTimeout)%Z ->
     getOrCreateSession r w =
     (sd_sessionId d,
      put (Parsed {| sd_sessionId := sd_sessionId d; created := created d;
                     lastActivity := Some (now_check r) |}) w)) /\
  (stored = None \/ stored = Some Unparseable \/
   (exists d, stored = Some (Parsed d) /\
              (sessionTimeout <= now_check r - last_activity_or_0 d)%Z) ->
   let random := substring 2 9 (random36 r) in
   let id := "sess_" +:+ random +:+ to_base36 (now_id r) in
   getOrCreateSession r w =
   (id, put (Parsed {| sd_sessionId := id; created := now_created r;
                       lastActivity := Some (now_activity r) |}) w) /\
   (String.length random <= 9)%nat /\
   (11 <= String.length (random36 r) -> String.length random = 9)%nat /\
   ((0 <= now_id r)%Z -> base36_value (to_base36 (now_id r)) 0 = Z.to_N (now_id r))).
Proof.
  intros Hst. split.
  - intros d Hd Hlive. unfold getOrCreateSession. rewrite Hst. subst stored.
    apply Z.ltb_lt in Hlive. rewrite Hlive. reflexivity.
  - intros Hcase random id. unfold getOrCreateSession. rewrite Hst.
    split; [|split; [apply length_substring_le|split]].
    + destruct Hcase as [Hs|[Hs|(d & Hs & Hold)]]; subst stored;
        try reflexivity.
      apply Z.ltb_ge in Hold. rewrite Hold. reflexivity.
    + intros Hlen. apply length_substring_full. lia.
    + apply base36_value_to_base36.
Qed.

(** C6, the claim as stated fails: when [Math.random()] returns 0.5 the
    new id has a single random character between ["sess_"] and the
    time, so it is not ["sess_"], nine characters and the time. *)
Lemma session_id_with_one_random_character :
  (getOrCreateSession Samples.short_random Samples.first_visit).1 =
    "sess_i" +:+ to_base36 1735689610000 /\
  ~ exists random,
      String.length random = 9%nat /\
      (getOrCreateSession Samples.short_random Samples.first_visit).1 =
        "sess_" +:+ random +:+ to_base36 1735689610000.
Proof.
  split; [reflexivity|].
  intros (random & Hlen & Hid).
  apply (f_equal String.length) in Hid.
  rewrite !length_append, Hlen in Hid. vm_compute in Hid. discriminate.
Qed.

Lemma session_reused_or_minted_witness :
  getOrCreateSession Samples.usual_random Samples.returning =
    ("sess_4fzyo82mvm59d2r5s",
     put (Parsed {| sd_sessionId := "sess_4fzyo82mvm59d2r5s";
                    created := 1735680000000;
                    lastActivity := Some 1735689610000 |}) Samples.returning) /\
  (getOrCreateSession Samples.usual_random Samples.first_visit).1 =
    "sess_4fzyo82mv" +:+ to_base36 1735689610001.
Proof.
  split.
  - destruct (session_reused_or_minted Samples.usual_random Samples.returning
                (Some (Parsed Samples.recent)) eq_refl) as [Hreuse _].
    apply (Hreuse Samples.recent eq_refl). reflexivity.
  - destruct (session_reused_or_minted Samples.usual_random Samples.first_visit
                None eq_refl) as [_ Hmint].
    destruct (Hmint (or_introl eq_refl)) as [Hid _].
    rewrite Hid. reflexivity.
Defined.

(** ** Recovery *)

(** C7, as amended. When the failed-events store is not empty,
    [recoverFailedEvents] empties it and puts its contents at the end of
    the live queue, behind the events already queued. The userscript
    (Greasemonkey store first, [localStorage] otherwise) then schedules a
    flush 1000 ms later; [pixel.js] calls [flush] at once, which sends
    the whole queue unless the latch [isFlushing] is set. *)
Theorem recovered_events_appended (w : World) (item : FailedItem) :
  read_failed item <> [] ->
  (gmStorage w = Some item ->
   let w' := UserscriptGM.recoverFailedEvents w in
   queue w' = queue w ++ read_failed item /\
   gmStorage w' = Some (Some []) /\
   localStorage w' = localStorage w /\
   timers w' = timers w ++ [{| delay := 1000; callback := DelayedFlush |}] /\
   inflight w' = inflight w) /\
  (gmStorage w = None -> localStorage w = Some item ->
   let w' := UserscriptGM.recoverFailedEvents w in
   queue w' = queue w ++ read_failed item /\
   localStorage w' = Some None /\
   timers w' = timers w ++ [{| delay := 1000; callback := DelayedFlush |}] /\
   inflight w' = inflight w) /\
  (localStorage w = Some item ->
   let w' := PixelJs.recoverFailedEvents w in
   localStorage w' = Some None /\
   timers w' = timers w /\
   (isFlushing w = false ->
    queue w' = [] /\
    inflight w' = inflight w ++
      [{| eventsToSend := queue w ++ read_failed item; synchronous := false |}]) /\
   (isFlushing w = true ->
    queue w' = queue w ++ read_failed item /\ inflight w' = inflight w)).
Proof.
  intros Hne.
  assert (Hpos : (0 <? length (read_failed item))%nat = true).
  { apply Nat.ltb_lt. destruct (read_failed item); [congruence|simpl; lia]. }
  split; [|split].
  - intros Hgm w'. subst w'. unfold UserscriptGM.recoverFailedEvents.
    rewrite Hgm, Hpos. repeat split; reflexivity.
  - intros Hgm Hls w'. subst w'. unfold UserscriptGM.recoverFailedEvents.
    rewrite Hgm, Hls, Hpos. repeat split; reflexivity.
  - intros Hls w'. subst w'. unfold PixelJs.recoverFailedEvents.
    rewrite Hls, Hpos.
    set (w2 := set_localStorage (Some None)
                 (set_queue (queue w ++ read_failed item) w)).
    assert (Hq2 : queue w2 <> []).
    { simpl. intros Happ. apply app_eq_nil in Happ as [_ Hnil]. congruence. }
    destruct (isFlushing w) eqn:Hf.
    + rewrite flush_busy by exact Hf.
      repeat split; try reflexivity; discriminate.
    + rewrite flush_idle by (assumption || exact Hf).
      repeat split; try reflexivity; discriminate.
Qed.

(** C7, the claim as stated fails: the recovered event is queued behind
    the page view that [init] tracked, not ahead of it; and [pixel.js]
    sets no timer, the request leaves at once. *)
Lemma recovered_events_behind_page_view :
  queue Samples.first_view <> [] /\
  queue (UserscriptGM.start "sess_a" Samples.page None (Some (Some [Samples.stale]))) =
    queue Samples.first_view ++ [Samples.stale] /\
  queue (UserscriptGM.start "sess_a" Samples.page None (Some (Some [Samples.stale]))) <>
    [Samples.stale] ++ queue Samples.first_view /\
  timers (PixelJs.start "sess_a" Samples.page (Some (Some [Samples.stale]))) = [] /\
  timers (PixelJs.start "sess_a" Samples.page (Some (Some [Samples.stale]))) <>
    [{| delay := 1000; callback := DelayedFlush |}] /\
  inflight (PixelJs.start "sess_a" Samples.page (Some (Some [Samples.stale]))) =
    [{| eventsToSend := queue Samples.first_view ++ [Samples.stale];
        synchronous := false |}].
Proof. repeat split; try reflexivity; discriminate. Qed.

Lemma recovered_events_appended_witness :
  queue (UserscriptGM.recoverFailedEvents
           (set_gmStorage (Some (Some [Samples.stale])) Samples.first_view)) =
    queue Samples.first_view ++ [Samples.stale] /\
  timers (UserscriptGM.recoverFailedEvents
            (set_gmStorage (Some (Some [Samples.stale])) Samples.first_view)) =
    [{| delay := 1000; callback := DelayedFlush |}].
Proof.
  assert (Hne : read_failed (Some [Samples.stale]) <> []) by discriminate.
  destruct (recovered_events_appended
              (set_gmStorage (Some (Some [Samples.stale])) Samples.first_view)
              (Some [Samples.stale]) Hne) as [Hgm _].
  destruct (Hgm eq_refl) as (Hq & _ & _ & Ht & _).
  split; [exact Hq|exact Ht].
Defined.

(** ** Instances of the theorems above *)

Lemma failed_flush_requeues_at_front_witness :
  queue (PixelJs.settle
           {| eventsToSend := [Samples.stale]; synchronous := false |}
           Failed Samples.first_view) =
    [Samples.stale] ++ queue Samples.first_view /\
  timers (PixelJs.settle
            {| eventsToSend := [Samples.stale]; synchronous := false |}
            Failed Samples.first_view) =
    [{| delay := 1000; callback := RetryFlush |}].
Proof.
  assert (Hlt : (retryCount Samples.first_view < maxRetries)%nat)
    by (vm_compute; lia).
  destruct (failed_flush_requeues_at_front PixelJs.spill
              {| eventsToSend := [Samples.stale]; synchronous := false |}
              Samples.first_view eq_refl Hlt) as (Hq & _ & Ht & _).
  split; [exact Hq|exact Ht].
Defined.

Lemma exhausted_batch_spilled_witness :
  localStorage (PixelJs.settle
                  {| eventsToSend := [Samples.stale]; synchronous := true |}
                  Failed Samples.first_view) =
    Some (Some [Samples.stale]) /\
  localStorage (run PixelJs.spill four_failures Samples.first_view) =
    Some (Some (queue Samples.first_view)).
Proof.
  destruct (exhausted_batch_spilled
              {| eventsToSend := [Samples.stale]; synchronous := true |}
              Samples.first_view None eq_refl) as [Hstep Hrun].
  split.
  - destruct (Hstep (or_introl eq_refl)) as [Hls _]. exact Hls.
  - assert (Hq : queue Samples.first_view <> []) by discriminate.
    destruct (Hrun Hq eq_refl eq_refl eq_refl eq_refl) as [Hls _]. exact Hls.
Defined.

Lemma full_queue_forces_flush_witness :
  isFlushing Samples.full_idle = false /\
  queue (track "click" None Samples.page Samples.full_idle) =
    [make_event Samples.full_idle "click" None Samples.page] /\
  inflight (track "click" None Samples.page Samples.full_idle) =
    [{| eventsToSend := queue Samples.full_idle; synchronous := false |}] /\
  isFlushing (track "click" None Samples.page Samples.full_idle) = true.
Proof.
  assert (Hfull : (maxQueueSize <= length (queue Samples.full_idle))%nat)
    by (vm_compute; lia).
  assert (Hlatch : isFlushing Samples.full_idle = false) by reflexivity.
  destruct (full_queue_forces_flush "click" None Samples.page
              Samples.full_idle Hfull) as [Hidle _].
  destruct (Hidle Hlatch) as (Hq & Hin & Hf).
  split; [exact Hlatch|]. split; [exact Hq|]. split; [exact Hin|exact Hf].
Defined.

End PixelFacts.

(* ===================================================================== *)
(** * The ingestion service: further properties *)
(* ===================================================================== *)

Module IngestionProps.
Import Server ServerSpec ServerFacts.

Section Props.
Context {C : SqlCodec}.

(** The loop on a batch whose first offending entry is [bad]. *)
Lemma ingest_loop_offending (ua : option string) (good rest : list JValue)
    (bad : JValue) (tx : DB) :
  forallb entry_ok good = true ->
  entry_ok bad = false ->
  ingest_loop ua (good ++ bad :: rest) tx =
  (exit_at (Some bad), store_all ua good tx).
Proof.
  revert tx. induction good as [|e good IH]; intros tx Hgood Hbad.
  - simpl. destruct (is_null bad) eqn:Hn.
    + destruct bad; try discriminate. reflexivity.
    + rewrite (destructure_fields bad Hn), missing_required_fields.
      unfold entry_ok in Hbad. rewrite Hn in Hbad. simpl in Hbad.
      destruct (lacks_required bad); [reflexivity|]. simpl in Hbad.
      apply negb_false_iff in Hbad. unfold db_refuses in Hbad.
      rewrite Hbad. reflexivity.
  - simpl in Hgood. apply andb_prop in Hgood as [He Hgood].
    apply entry_ok_cases in He as (Hn & Hl & Hr). unfold db_refuses in Hr.
    cbn [app ingest_loop].
    rewrite (destructure_fields e Hn), missing_required_fields, Hl, Hr.
    rewrite IH by assumption. reflexivity.
Qed.

Lemma store_all_events (ua : option string) (evs : list JValue) (db : DB) :
  events (store_all ua evs db) = events db ++ map row_of evs.
Proof.
  revert db. induction evs as [|e evs IH]; intros db.
  - simpl. rewrite app_nil_r. reflexivity.
  - unfold store_all in *. cbn [fold_left map]. rewrite IH.
    unfold store_event, upsert_session, insert_event. cbn [events].
    rewrite <- app_assoc. reflexivity.
Qed.

Lemma fold_store_pair_events (l : list (option string * JValue)) (db : DB) :
  events (fold_left store_pair l db) = events db ++ map row_of (map snd l).
Proof.
  revert db. induction l as [|p l IH]; intros db.
  - simpl. rewrite app_nil_r. reflexivity.
  - cbn [fold_left map]. rewrite IH.
    unfold store_pair, store_event, upsert_session, insert_event. cbn [events].
    rewrite <- app_assoc. reflexivity.
Qed.

(** X1. The answer to a batch of at most 100 entries is decided by the
    first entry that does not pass through the loop, whatever comes
    after it: 500 when that entry is [null], 400 when it lacks a required
    field, and 500 when it has the three fields and the database refuses
    it. *)
Theorem first_offending_entry_decides (db : DB) (ua : option string)
    (good rest : list JValue) (bad : JValue) :
  forallb entry_ok good = true ->
  entry_ok bad = false ->
  (length (good ++ bad :: rest) <= 100)%nat ->
  (post_events db (JArr (good ++ bad :: rest)) ua).1 =
  if is_null bad then respond 500 (Error "Internal server error")
  else if lacks_required bad
  then respond 400 (Error "Missing required fields: session_id, event_type, url")
  else respond 500 (Error "Internal server error").
Proof.
  intros Hgood Hbad Hlen. unfold post_events.
  destruct (Nat.eqb_spec (length (good ++ bad :: rest)) 0) as [H0|_].
  { rewrite length_app in H0. simpl in H0. lia. }
  destruct (Nat.ltb_spec 100 (length (good ++ bad :: rest))) as [Hgt|_]; [lia|].
  rewrite ingest_loop_offending by assumption. cbn [exit_at].
  destruct (is_null bad); [reflexivity|].
  destruct (lacks_required bad); reflexivity.
Qed.

(** X2. When an entry of a batch is refused, the rows already written
    for the entries before it (one event row each, and their session
    rows) exist only in the transaction: the database the request leaves
    is the one it found. *)
Theorem rollback_discards_partial_writes (db : DB) (ua : option string)
    (good rest : list JValue) (bad : JValue) :
  forallb entry_ok good = true ->
  entry_ok bad = false ->
  (length (good ++ bad :: rest) <= 100)%nat ->
  (ingest_loop ua (good ++ bad :: rest) (begin db)).2 = store_all ua good db /\
  events (store_all ua good db) = events db ++ map row_of good /\
  (post_events db (JArr (good ++ bad :: rest)) ua).2 = db.
Proof.
  intros Hgood Hbad Hlen.
  split; [|split].
  - rewrite ingest_loop_offending by assumption. reflexivity.
  - apply store_all_events.
  - unfold post_events.
    destruct (length (good ++ bad :: rest) =? 0)%nat; [reflexivity|].
    destruct (100 <? length (good ++ bad :: rest))%nat; [reflexivity|].
    rewrite ingest_loop_offending by assumption. cbn [exit_at].
    destruct (is_null bad); [reflexivity|].
    destruct (lacks_required bad); reflexivity.
Qed.

Lemma serve_counts (reqs : list Request) (db : DB) :
  sum_counts (serve db reqs).2 = length (ingested reqs).
Proof.
  revert db. induction reqs as [|r reqs IH]; intros db; [reflexivity|].
  simpl. destruct (post_events db (body r) (header_ua r)) as [resp db1] eqn:Hp.
  specialize (IH db1). destruct (serve db1 reqs) as [db2 resps]. simpl in *.
  unfold ingested in *. cbn [flat_map]. rewrite length_app, <- IH. f_equal.
  destruct (accepted (body r)) eqn:Hacc.
  - rewrite post_events_accepted in Hp by assumption. inversion Hp; subst.
    unfold count_of. simpl. rewrite length_map. reflexivity.
  - destruct (post_events_rejected db (body r) (header_ua r) Hacc) as [_ Hst].
    rewrite Hp in Hst. simpl in Hst.
    unfold count_of. destruct resp as [st [msg|msg n]]; [reflexivity|].
    exfalso. clear IH. revert Hp Hst. unfold post_events.
    destruct (body r); try (intros [= <- _]; intros [?|?]; discriminate).
    destruct (length items =? 0)%nat; [intros [= <- _] [?|?]; discriminate|].
    destruct (100 <? length items)%nat; [intros [= <- _] [?|?]; discriminate|].
    destruct (ingest_loop (header_ua r) items (begin db)) as [[| |] tx];
      intros [= <- _ _] [?|?]; discriminate.
Qed.

(** X3. The [events] table only grows: after any sequence of requests
    it is the table before followed by one row per ingested entry, in
    the order of the requests and of the entries in each batch; and the
    number of rows added is the sum of the [count]s the responses
    report. *)
Theorem stored_rows_match_counts (db : DB) (reqs : list Request) :
  events (serve db reqs).1 =
    events db ++ map row_of (map snd (ingested reqs)) /\
  length (events (serve db reqs).1) =
    (length (events db) + sum_counts (serve db reqs).2)%nat.
Proof.
  rewrite serve_ingested, fold_store_pair_events, serve_counts.
  split; [reflexivity|]. rewrite length_app, !length_map. reflexivity.
Qed.

Lemma fold_store_pair_other (l : list (option string * JValue)) (db : DB)
    (k : string) :
  of_session k l = [] ->
  sessions (fold_left store_pair l db) !! k = sessions db !! k.
Proof.
  revert db. induction l as [|[ua e] l IH]; intros db Hl; [reflexivity|].
  rewrite of_session_cons in Hl. cbn [snd] in Hl. cbn [fold_left].
  destruct (String.eqb_spec (entry_key e) k) as [Heq|Hne]; [discriminate|].
  rewrite IH by exact Hl. apply store_pair_other. exact Hne.
Qed.

Lemma of_session_none (k : string) (ua : option string) (evs : list JValue) :
  Forall (fun e => entry_key e <> k) evs ->
  of_session k (map (fun e => (ua, e)) evs) = [].
Proof.
  induction 1 as [|e evs He _ IH]; [reflexivity|].
  cbn [map]. rewrite of_session_cons. cbn [snd].
  destruct (String.eqb_spec (entry_key e) k); [contradiction|]. exact IH.
Qed.

(** X4. A request touches only the sessions its entries name: the row of
    a session that no entry of the body belongs to is the same before
    and after, whether the request is accepted or not. *)
Theorem other_sessions_untouched (db : DB) (b : JValue) (ua : option string)
    (k : string) :
  Forall (fun e => entry_key e <> k) (batch_of b) ->
  sessions (post_events db b ua).2 !! k = sessions db !! k.
Proof.
  intros Hk. destruct (accepted b) eqn:Hacc.
  - rewrite post_events_accepted by assumption. cbn [snd].
    rewrite store_all_pairs. apply fold_store_pair_other.
    apply of_session_none. exact Hk.
  - destruct (post_events_rejected db b ua Hacc) as [-> _]. reflexivity.
Qed.

Lemma store_pair_keeps_row (db : DB) (p : option string * JValue)
    (k : string) (s : Session) :
  sessions db !! k = Some s ->
  exists s', sessions (store_pair db p) !! k = Some s' /\
             start_time s' = start_time s /\
             (page_views s <= page_views s')%Z.
Proof.
  intros Hs. destruct p as [ua e].
  destruct (String.eqb_spec (entry_key e) k) as [<-|Hne].
  - rewrite store_pair_same, Hs. eexists. split; [reflexivity|].
    simpl. split; [reflexivity|].
    destruct (pageview_increment_cases e) as [-> | ->]; lia.
  - rewrite store_pair_other by assumption. exists s.
    split; [assumption|]. split; [reflexivity|lia].
Qed.

Lemma fold_store_pair_keeps_row (l : list (option string * JValue)) (db : DB)
    (k : string) (s : Session) :
  sessions db !! k = Some s ->
  exists s', sessions (fold_left store_pair l db) !! k = Some s' /\
             start_time s' = start_time s /\
             (page_views s <= page_views s')%Z.
Proof.
  revert db s. induction l as [|p l IH]; intros db s Hs.
  - exists s. simpl. split; [assumption|]. split; [reflexivity|lia].
  - cbn [fold_left].
    destruct (store_pair_keeps_row db p k s Hs) as (s1 & Hs1 & Hst1 & Hpv1).
    destruct (IH _ _ Hs1) as (s2 & Hs2 & Hst2 & Hpv2).
    exists s2. split; [assumption|]. split; [congruence|lia].
Qed.

(** X5. A session row, once written, stays: no sequence of requests
    removes it, its [start_time] never changes and its [page_views]
    never goes down. *)
Theorem session_row_persists (reqs : list Request) (db : DB) (k : string)
    (s : Session) :
  sessions db !! k = Some s ->
  exists s', sessions (serve db reqs).1 !! k = Some s' /\
             start_time s' = start_time s /\
             (page_views s <= page_views s')%Z.
Proof.
  intros Hs. rewrite serve_ingested. apply fold_store_pair_keeps_row, Hs.
Qed.

Lemma of_session_app (k : string) (l1 l2 : list (option string * JValue)) :
  of_session k (l1 ++ l2) = of_session k l1 ++ of_session k l2.
Proof. unfold of_session. apply List.filter_app. Qed.

Lemma pageviews_app (l1 l2 : list (option string * JValue)) :
  pageviews (l1 ++ l2) = (pageviews l1 + pageviews l2)%nat.
Proof. unfold pageviews. rewrite List.filter_app, length_app. reflexivity. Qed.

(** X6. Ingestion is not idempotent: a batch delivered twice is stored
    twice. Its event rows are added twice and every session gets the
    page views of the batch twice. *)
Theorem redelivery_counts_twice (db : DB) (r : Request) (k : string) :
  accepted (body r) = true ->
  page_views_of (serve db [r; r]).1 k =
    (page_views_of db k +
     2 * Z.of_nat (pageviews (of_session k (entries [r]))))%Z /\
  length (events (serve db [r; r]).1) =
    (length (events db) + 2 * length (batch_of (body r)))%nat.
Proof.
  intros Hacc.
  assert (Hing : ingested [r; r] = entries [r] ++ entries [r]).
  { unfold ingested, entries. cbn [flat_map]. rewrite Hacc, !app_nil_r.
    reflexivity. }
  rewrite serve_ingested, Hing. split.
  - rewrite page_views_of_fold, of_session_app, pageviews_app. lia.
  - rewrite fold_store_pair_events, length_app, !length_map, length_app.
    unfold entries. cbn [flat_map]. rewrite app_nil_r, length_map. lia.
Qed.

Lemma user_agent_filled_fold (l : list (option string * JValue)) (db : DB)
    (k u : string) :
  Forall (fun p => p.1 = Some u) l ->
  Exists (fun p => entry_key p.2 = k) l ->
  (forall s, sessions db !! k = Some s ->
             user_agent s = None \/ user_agent s = Some u) ->
  exists s', sessions (fold_left store_pair l db) !! k = Some s' /\
             user_agent s' = Some u.
Proof.
  revert db. induction l as [|[ua e] l IH]; intros db Hua Hex Hdb.
  - inversion Hex.
  - inversion Hua as [|? ? Hhd Htl]; subst. cbn [fst] in Hhd. subst ua.
    cbn [fold_left].
    destruct (String.eqb_spec (entry_key e) k) as [Heq|Hne].
    + apply (user_agent_fold l _ k (upserted (Some u) e (sessions db !! k)) u).
      * rewrite <- Heq at 1. rewrite store_pair_same, Heq. reflexivity.
      * unfold upserted. destruct (sessions db !! k) as [s|] eqn:Hs; simpl;
          [|reflexivity].
        destruct (Hdb s eq_refl) as [-> | ->]; reflexivity.
    + apply IH.
      * exact Htl.
      * inversion Hex as [? ? Hh|? ? Ht]; [cbn [snd] in Hh; contradiction|exact Ht].
      * intros s. rewrite store_pair_other by assumption. apply Hdb.
Qed.

(** X7. The first request that carries a [User-Agent] header fills the
    [user_agent] of a session: when the session has no row, or a row
    with a null [user_agent], an accepted request with header [u] that
    has an entry of the session leaves the row with [user_agent = u]. *)
Theorem user_agent_filled_by_first_header (db : DB) (b : JValue)
    (k u : string) :
  accepted b = true ->
  Exists (fun e => entry_key e = k) (batch_of b) ->
  (forall s, sessions db !! k = Some s -> user_agent s = None) ->
  exists s', sessions (post_events db b (Some u)).2 !! k = Some s' /\
             user_agent s' = Some u.
Proof.
  intros Hacc Hex Hnull.
  rewrite post_events_accepted by assumption. cbn [snd].
  rewrite store_all_pairs. apply user_agent_filled_fold.
  - apply List.Forall_forall. intros p Hin.
    apply List.in_map_iff in Hin as (e & <- & _). reflexivity.
  - apply List.Exists_exists in Hex as (e & Hin & He).
    apply List.Exists_exists. exists (Some u, e). split; [|exact He].
    apply List.in_map_iff. exists e. split; [reflexivity|exact Hin].
  - intros s Hs. left. apply Hnull, Hs.
Qed.

(** ** The tracker's batches at the server *)

Lemma lacks_required_event_json (e : Pixel.Event) :
  lacks_required (Pixel.event_json e) =
  String.eqb (Pixel.session_id e) "" || String.eqb (Pixel.event_type e) ""
  || String.eqb (Pixel.url e) "".
Proof.
  unfold lacks_required, lacks, Pixel.event_json. simpl.
  destruct (String.eqb (Pixel.session_id e) "");
    destruct (String.eqb (Pixel.event_type e) "");
    destruct (String.eqb (Pixel.url e) ""); reflexivity.
Qed.

Lemma eqb_empty_false (s : string) : s <> "" -> String.eqb s "" = false.
Proof. intros Hs. apply String.eqb_neq. exact Hs. Qed.

Lemma complete_event_json (e : Pixel.Event) :
  Pixel.session_id e <> "" /\ Pixel.event_type e <> "" /\ Pixel.url e <> "" ->
  is_null (Pixel.event_json e) = false /\
  lacks_required (Pixel.event_json e) = false.
Proof.
  intros (Hs & Ht & Hu). split; [reflexivity|].
  rewrite lacks_required_event_json, !eqb_empty_false by assumption.
  reflexivity.
Qed.

Lemma incomplete_event_json (e : Pixel.Event) :
  Pixel.session_id e = "" \/ Pixel.event_type e = "" \/ Pixel.url e = "" ->
  is_null (Pixel.event_json e) = false /\
  lacks_required (Pixel.event_json e) = true.
Proof.
  intros He. split; [reflexivity|]. rewrite lacks_required_event_json.
  destruct He as [-> |[-> | ->]]; simpl; rewrite ?orb_true_r; reflexivity.
Qed.

(** X8. The tracker and the server agree on the format: a batch of 1 to
    100 events, each with a non-empty session id, event type and page
    address and each taken by the database (its timestamp and metadata
    fit the columns), is answered with 200 and a [count] equal to its
    length, and is stored entry by entry. *)
Theorem tracker_batch_accepted (db : DB) (ua : option string)
    (evs : list Pixel.Event) :
  (1 <= length evs <= 100)%nat ->
  Forall (fun e => Pixel.session_id e <> "" /\ Pixel.event_type e <> "" /\
                   Pixel.url e <> "") evs ->
  Forall (fun e => db_refuses (Pixel.event_json e) = false) evs ->
  post_events db (Pixel.batch_json evs) ua =
  (respond 200 (Ingested "Events ingested successfully" (length evs)),
   store_all ua (map Pixel.event_json evs) db).
Proof.
  intros Hlen Hwf Hdb.
  assert (Hall : forallb entry_ok (map Pixel.event_json evs) = true).
  { clear Hlen. induction Hwf as [|e evs He _ IH]; [reflexivity|].
    inversion Hdb as [|? ? Hr Hdb']; subst.
    cbn [map forallb]. rewrite (IH Hdb'), andb_true_r.
    apply entry_ok_cases. destruct (complete_event_json e He). auto. }
  rewrite (post_events_accepted db (Pixel.batch_json evs) ua).
  - unfold Pixel.batch_json. cbn [batch_of]. rewrite length_map. reflexivity.
  - unfold Pixel.batch_json, accepted. rewrite length_map, Hall.
    destruct (Nat.eqb_spec (length evs) 0) as [H0|_]; [lia|].
    destruct (Nat.ltb_spec 100 (length evs)) as [Hgt|_]; [lia|]. reflexivity.
Qed.

(** The first event of a batch that lacks a field, and the loop. *)
Lemma find_offending_event (before rest : list Pixel.Event) (bad : Pixel.Event) :
  Forall (fun e => Pixel.session_id e <> "" /\ Pixel.event_type e <> "" /\
                   Pixel.url e <> "") before ->
  (Pixel.session_id bad = "" \/ Pixel.event_type bad = "" \/
   Pixel.url bad = "") ->
  exit_at (List.find (fun e => negb (entry_ok e))
             (map Pixel.event_json (before ++ bad :: rest))) =
  if forallb (fun e => negb (db_refuses (Pixel.event_json e))) before
  then Rejected else Raised.
Proof.
  intros Hwf Hbad. induction Hwf as [|e before He _ IH].
  - destruct (incomplete_event_json bad Hbad) as [Hn Hl].
    cbn [app map List.find forallb]. unfold entry_ok at 1.
    rewrite Hn, Hl. cbn [negb andb exit_at]. rewrite Hn, Hl. reflexivity.
  - destruct (complete_event_json e He) as [Hn Hl].
    cbn [app map List.find forallb]. unfold entry_ok at 1.
    rewrite Hn, Hl. cbn [negb andb].
    destruct (db_refuses (Pixel.event_json e)); cbn [negb andb].
    + cbn [exit_at]. rewrite Hn, Hl. reflexivity.
    + exact IH.
Qed.

(** X9. One event without a session id, an event type or a page address
    (for instance one tracked with an empty name) makes the server
    refuse the whole batch it travels in: nothing of the batch is
    stored. The answer is 400, except in a batch of at most 100 events
    in which the database refuses an event queued before that one: the
    refused query comes first and the answer is 500. *)
Theorem one_bad_event_refuses_batch (db : DB) (ua : option string)
    (before rest : list Pixel.Event) (bad : Pixel.Event) :
  Forall (fun e => Pixel.session_id e <> "" /\ Pixel.event_type e <> "" /\
                   Pixel.url e <> "") before ->
  (Pixel.session_id bad = "" \/ Pixel.event_type bad = "" \/
   Pixel.url bad = "") ->
  (post_events db (Pixel.batch_json (before ++ bad :: rest)) ua).2 = db /\
  status (post_events db (Pixel.batch_json (before ++ bad :: rest)) ua).1 =
    if (100 <? length (before ++ bad :: rest))%nat
       || forallb (fun e => negb (db_refuses (Pixel.event_json e))) before
    then 400%nat else 500%nat.
Proof.
  intros Hwf Hbad. pose proof (find_offending_event before rest bad Hwf Hbad)
    as Hfind.
  unfold Pixel.batch_json, post_events.
  pose proof (ingest_loop_exit ua (map Pixel.event_json (before ++ bad :: rest))
                (begin db)) as Hexit.
  destruct (ingest_loop ua (map Pixel.event_json (before ++ bad :: rest))
              (begin db)) as [ex tx].
  cbn [fst] in Hexit. rewrite Hfind in Hexit. rewrite length_map.
  destruct (Nat.eqb_spec (length (before ++ bad :: rest)) 0) as [H0|_].
  { rewrite length_app in H0. simpl in H0. lia. }
  destruct (100 <? length (before ++ bad :: rest))%nat; [split; reflexivity|].
  cbn [orb]. subst ex.
  destruct (forallb _ before); split; reflexivity.
Qed.

Lemma slice_last_drop_first (e : Pixel.Event) (l : list Pixel.Event) :
  length l = 100%nat -> Pixel.slice_last 100 (e :: l) = l.
Proof.
  intros Hl. unfold Pixel.slice_last. cbn [length]. rewrite Hl. reflexivity.
Qed.

(** X10. A full fallback store cannot be drained by [pixel.js]. With 100
    events stored, start-up sends them behind the first page view in one
    batch of 101, which the server refuses for its size; and when that
    request and its three retries have failed, the store holds the same
    100 events again and the page view is lost. *)
Theorem full_store_is_never_drained (sid : string) (pg : Pixel.Page)
    (old : list Pixel.Event) (db : DB) (ua : option string) :
  length old = 100%nat ->
  let view := Pixel.make_event (Pixel.fresh sid (Some (Some old)) None)
                "pageview" None pg in
  let w := Pixel.PixelJs.start sid pg (Some (Some old)) in
  let w' := Pixel.run Pixel.PixelJs.spill Pixel.every_attempt_fails w in
  Pixel.inflight w =
    [{| Pixel.eventsToSend := view :: old; Pixel.synchronous := false |}] /\
  (post_events db (Pixel.batch_json (view :: old)) ua).1 =
    respond 400 (Error "Too many events in batch (max 100)") /\
  Pixel.localStorage w' = Some (Some old) /\
  Pixel.queue w' = [] /\ Pixel.inflight w' = [].
Proof.
  intros Hlen view w w'.
  assert (Hw : w = {| Pixel.queue := []; Pixel.sessionId := sid;
                      Pixel.retryCount := 0; Pixel.isFlushing := true;
                      Pixel.localStorage := Some None; Pixel.gmStorage := None;
                      Pixel.timers := [];
                      Pixel.inflight :=
                        [{| Pixel.eventsToSend := view :: old;
                            Pixel.synchronous := false |}] |}).
  { subst w view. unfold Pixel.PixelJs.start, Pixel.PixelJs.recoverFailedEvents.
    cbn -[Nat.ltb]. rewrite Hlen. reflexivity. }
  split; [rewrite Hw; reflexivity|]. split.
  - unfold Pixel.batch_json, post_events. rewrite length_map. cbn [length].
    rewrite Hlen. reflexivity.
  - subst w'. rewrite Hw. cbn -[Pixel.slice_last].
    rewrite !app_nil_r, slice_last_drop_first by assumption.
    repeat split; reflexivity.
Qed.

End Props.

(** ** Instances *)

Lemma first_offending_entry_decides_witness :
  (post_events (C := Samples.codec) empty_db
     (JArr ([Samples.bare_entry] ++ Samples.unstamped_entry :: [JObj []]))
     None).1 =
  respond 500 (Error "Internal server error").
Proof.
  assert (Hlen : (length ([Samples.bare_entry]
                          ++ Samples.unstamped_entry :: [JObj []])
                  <= 100)%nat) by (simpl; lia).
  exact (first_offending_entry_decides (C := Samples.codec) empty_db None
           [Samples.bare_entry] [JObj []] Samples.unstamped_entry
           eq_refl eq_refl Hlen).
Defined.

Lemma rollback_discards_partial_writes_witness :
  length (events (ingest_loop (C := Samples.codec) None
                    ([Samples.bare_entry] ++ JObj [] :: []) (begin empty_db)).2)
    = 1%nat /\
  (post_events (C := Samples.codec) empty_db
     (JArr ([Samples.bare_entry] ++ JObj [] :: [])) None).2 = empty_db.
Proof.
  assert (Hlen : (length ([Samples.bare_entry] ++ JObj [] :: []) <= 100)%nat)
    by (simpl; lia).
  destruct (rollback_discards_partial_writes (C := Samples.codec) empty_db None
              [Samples.bare_entry] [] (JObj []) eq_refl eq_refl Hlen)
    as (Htx & Hrows & Hdb).
  split; [|exact Hdb]. rewrite Htx, Hrows. reflexivity.
Defined.

Lemma other_sessions_untouched_witness :
  sessions (post_events (C := Samples.codec)
              (serve (C := Samples.codec) empty_db Samples.two_batches).1
              (JArr [Samples.other_entry]) None).2 !! "sess_a" =
  sessions (serve (C := Samples.codec) empty_db Samples.two_batches).1 !! "sess_a".
Proof.
  apply (other_sessions_untouched (C := Samples.codec)).
  repeat constructor. intros Heq. vm_compute in Heq. discriminate Heq.
Defined.

Lemma session_row_persists_witness :
  exists s',
    sessions (serve (C := Samples.codec) empty_db Samples.two_batches).1 !! "sess_a"
      = Some s' /\
    start_time s' = Some 20250101000001000%Z /\
    (1 <= page_views s')%Z.
Proof.
  set (db1 := (serve (C := Samples.codec) empty_db (take 1 Samples.two_batches)).1).
  set (s1 := {| start_time := Some 20250101000001000%Z;
                end_time := Some 20250101000002000%Z;
                page_views := 1; user_agent := Some "Mozilla/5.0" |}).
  assert (H1 : sessions db1 !! "sess_a" = Some s1) by (vm_compute; reflexivity).
  exact (session_row_persists (C := Samples.codec)
           (drop 1 Samples.two_batches) db1 "sess_a" s1 H1).
Defined.

Lemma redelivery_counts_twice_witness :
  page_views_of
    (serve (C := Samples.codec) empty_db
       [Samples.request [Samples.event "pageview" "2025-01-01T00:00:01.000Z"]
          "Mozilla/5.0";
        Samples.request [Samples.event "pageview" "2025-01-01T00:00:01.000Z"]
          "Mozilla/5.0"]).1 "sess_a" = 2%Z.
Proof.
  destruct (redelivery_counts_twice (C := Samples.codec) empty_db
              (Samples.request
                 [Samples.event "pageview" "2025-01-01T00:00:01.000Z"]
                 "Mozilla/5.0") "sess_a" eq_refl) as [Hpv _].
  rewrite Hpv. reflexivity.
Defined.

Lemma user_agent_filled_by_first_header_witness :
  exists s',
    sessions (post_events (C := Samples.codec) empty_db
                (JArr [Samples.bare_entry]) (Some "Mozilla/5.0")).2 !! "sess_a"
      = Some s' /\
    user_agent s' = Some "Mozilla/5.0".
Proof.
  apply (user_agent_filled_by_first_header (C := Samples.codec)).
  - reflexivity.
  - constructor. reflexivity.
  - intros s Hs. simpl in Hs. rewrite lookup_empty in Hs. discriminate Hs.
Defined.

Lemma tracker_batch_accepted_witness :
  (post_events (C := Samples.codec) empty_db
     (Pixel.batch_json [Samples.event "pageview" "2025-01-01T00:00:01.000Z"])
     None).1 =
  respond 200 (Ingested "Events ingested successfully" 1).
Proof.
  assert (Hlen : (1 <= length [Samples.event "pageview" "2025-01-01T00:00:01.000Z"]
                  <= 100)%nat) by (simpl; lia).
  assert (Hwf : Forall (fun e => Pixel.session_id e <> "" /\
                                 Pixel.event_type e <> "" /\ Pixel.url e <> "")
                  [Samples.event "pageview" "2025-01-01T00:00:01.000Z"]).
  { repeat constructor; discriminate. }
  assert (Hdb : Forall (fun e => db_refuses (C := Samples.codec)
                                   (Pixel.event_json e) = false)
                  [Samples.event "pageview" "2025-01-01T00:00:01.000Z"]).
  { repeat constructor. }
  rewrite (tracker_batch_accepted (C := Samples.codec) empty_db None _
             Hlen Hwf Hdb).
  reflexivity.
Defined.

Lemma one_bad_event_refuses_batch_witness :
  status (post_events (C := Samples.codec) empty_db
            (Pixel.batch_json
               [Samples.event "pageview" "2025-01-01T00:00:01.000Z";
                Samples.event "" "2025-01-01T00:00:02.000Z"]) None).1 = 400%nat.
Proof.
  assert (Hwf : Forall (fun e => Pixel.session_id e <> "" /\
                                 Pixel.event_type e <> "" /\ Pixel.url e <> "")
                  [Samples.event "pageview" "2025-01-01T00:00:01.000Z"]).
  { repeat constructor; discriminate. }
  assert (Hbad : Pixel.session_id (Samples.event "" "2025-01-01T00:00:02.000Z") = ""
                 \/ Pixel.event_type (Samples.event "" "2025-01-01T00:00:02.000Z") = ""
                 \/ Pixel.url (Samples.event "" "2025-01-01T00:00:02.000Z") = "").
  { right. left. reflexivity. }
  destruct (one_bad_event_refuses_batch (C := Samples.codec) empty_db None
              [Samples.event "pageview" "2025-01-01T00:00:01.000Z"] []
              (Samples.event "" "2025-01-01T00:00:02.000Z") Hwf Hbad)
    as [_ Hst].
  exact Hst.
Defined.

Lemma full_store_is_never_drained_witness :
  Pixel.localStorage
    (Pixel.run Pixel.PixelJs.spill Pixel.every_attempt_fails
       (Pixel.PixelJs.start "sess_a" Samples.page (Some (Some Samples.full_store))))
  = Some (Some Samples.full_store).
Proof.
  assert (Hlen : length Samples.full_store = 100%nat) by reflexivity.
  destruct (full_store_is_never_drained (C := Samples.codec) "sess_a" Samples.page
              Samples.full_store empty_db None Hlen) as (_ & _ & Hls & _).
  exact Hls.
Defined.

End IngestionProps.

(* ===================================================================== *)
(** * The tracker: further properties *)
(* ===================================================================== *)

Module TrackerProps.
Import Pixel PixelFacts.

Lemma pixeljs_stores_only : stores_only PixelJs.spill.
Proof.
  intros evs w. unfold PixelJs.spill.
  destruct (localStorage w); repeat split; reflexivity.
Qed.

Lemma userscript_gm_stores_only : stores_only UserscriptGM.storeFailedEvents.
Proof.
  intros evs w. unfold UserscriptGM.storeFailedEvents.
  destruct (gmStorage w); [repeat split; reflexivity|].
  destruct (localStorage w); repeat split; reflexivity.
Qed.

Lemma userscript_ls_stores_only : stores_only UserscriptLS.spill.
Proof. intros evs w. repeat split; reflexivity. Qed.

(** What [settle] leaves of the tracker, store aside. *)
Lemma settle_tracker (spill : list Event -> World -> World) (r : Request)
    (o : Outcome) (w : World) :
  stores_only spill ->
  isFlushing (settle spill r o w) = false /\
  inflight (settle spill r o w) = inflight w /\
  sessionId (settle spill r o w) = sessionId w /\
  queue (settle spill r o w) =
    match o with
    | Delivered => queue w
    | Failed => if negb (synchronous r) && (retryCount w <? maxRetries)%nat
                then eventsToSend r ++ queue w else queue w
    end.
Proof.
  intros Hspill. unfold settle. destruct o; [repeat split; reflexivity|].
  destruct (negb (synchronous r) && (retryCount w <? maxRetries)%nat).
  - repeat split; reflexivity.
  - destruct (Hspill (eventsToSend r) w) as (Hq & Hs & _ & _ & _ & Hi).
    cbn. repeat split; assumption.
Qed.

Lemma single_flight_idle (w : World) :
  inflight w = [] -> isFlushing w = false -> single_flight w.
Proof. intros Hi Hf. left. split; assumption. Qed.

(** One step that is not the firing of a timer keeps the latch in step
    with the requests, and moves events without losing, repeating or
    reordering any. *)
Lemma step_in_order (spill : list Event -> World -> World) (a : Action)
    (w : World) :
  stores_only spill ->
  is_fire a = false ->
  single_flight w ->
  single_flight (step spill a w) /\
  sessionId (step spill a w) = sessionId w /\
  leaves a w ++ in_flight (step spill a w) ++ queue (step spill a w) =
  in_flight w ++ queue w ++ queued_by a w.
Proof.
  intros Hspill Hnf Hsf. destruct a as [ty md pg|sync|i o|i]; [| | |discriminate].
  - (* track *)
    destruct Hsf as [[Hi Hf]|(r & Hi & Hf)].
    + unfold step, track, leaves, queued_by, in_flight.
      destruct (maxQueueSize <=? length (queue w))%nat eqn:Hfull.
      * assert (Hq : queue w <> []).
        { intros Hnil. rewrite Hnil in Hfull. discriminate Hfull. }
        rewrite (flush_idle false w Hq Hf). cbn. rewrite Hi. cbn.
        split; [right; eexists; split; reflexivity|].
        split; [reflexivity|]. rewrite app_nil_r. reflexivity.
      * cbn. rewrite Hi. cbn.
        split; [left; split; assumption|]. split; reflexivity.
    + unfold step, leaves, queued_by, in_flight. rewrite track_busy by assumption.
      cbn. split; [right; exists r; split; assumption|].
      split; [reflexivity|]. rewrite app_assoc. reflexivity.
  - (* flush *)
    unfold step, leaves, queued_by, in_flight.
    destruct Hsf as [[Hi Hf]|(r & Hi & Hf)].
    + destruct (queue w) as [|e q] eqn:Hq.
      * rewrite flush_empty by assumption. rewrite Hq, Hi. cbn.
        split; [left; split; assumption|]. split; reflexivity.
      * assert (Hne : queue w <> []) by (rewrite Hq; discriminate).
        rewrite (flush_idle sync w Hne Hf). cbn. rewrite Hi, Hq. cbn.
        split; [right; eexists; split; reflexivity|].
        split; [reflexivity|]. rewrite !app_nil_r. reflexivity.
    + rewrite flush_busy by assumption.
      split; [right; exists r; split; assumption|].
      split; [reflexivity|]. cbn. rewrite app_nil_r. reflexivity.
  - (* settle *)
    unfold step, leaves, queued_by, in_flight.
    destruct Hsf as [[Hi Hf]|(r & Hi & Hf)].
    + rewrite Hi, lookup_nil. rewrite Hi. cbn.
      split; [left; split; assumption|]. split; [reflexivity|].
      rewrite ?app_nil_r. reflexivity.
    + rewrite Hi. destruct i as [|i].
      * cbn [lookup list_lookup delete list_delete].
        destruct (settle_tracker spill r o (set_inflight [] w) Hspill)
          as (Hf' & Hi' & Hs' & Hq').
        split; [left; split; assumption|]. split; [exact Hs'|].
        rewrite Hi', Hq'. destruct o.
        { cbn. rewrite ?app_nil_r. reflexivity. }
        change (retryCount (set_inflight [] w)) with (retryCount w).
        destruct (negb (synchronous r) && (retryCount w <? maxRetries)%nat);
          cbn; rewrite ?app_nil_r; reflexivity.
      * change ([r] !! S i) with (@nil Request !! i). rewrite lookup_nil, Hi.
        split; [right; exists r; split; assumption|].
        split; [reflexivity|]. cbn. rewrite ?app_nil_r. reflexivity.
Qed.

(** X11. Requests are sent one at a time: over any sequence of [track]
    calls, [flush] calls and settled requests (no timer firing), at most
    one request is in flight, and [isFlushing] is set exactly while one
    is. *)
Theorem one_request_at_a_time (spill : list Event -> World -> World)
    (acts : list Action) (w : World) :
  stores_only spill ->
  Forall (fun a => is_fire a = false) acts ->
  single_flight w ->
  single_flight (run spill acts w).
Proof.
  intros Hspill Hacts. revert w.
  induction Hacts as [|a acts Ha _ IH]; intros w Hsf; [exact Hsf|].
  unfold run in *. cbn [fold_left]. apply IH.
  apply (step_in_order spill a w Hspill Ha Hsf).
Qed.

(** X12. Events leave the tracker in the order they were tracked, each
    one once. Over any sequence of [track] calls, [flush] calls and
    settled requests (no timer firing): the batches delivered or given
    up so far, then the batch in flight, then the queue, read in that
    order, are what was in flight and queued at the start followed by
    the events tracked since, in the order of the calls. *)
Theorem events_leave_in_order (spill : list Event -> World -> World)
    (acts : list Action) (w : World) :
  stores_only spill ->
  Forall (fun a => is_fire a = false) acts ->
  single_flight w ->
  handed_over spill acts w ++ in_flight (run spill acts w)
    ++ queue (run spill acts w) =
  in_flight w ++ queue w ++ tracked spill acts w.
Proof.
  intros Hspill Hacts. revert w.
  induction Hacts as [|a acts Ha _ IH]; intros w Hsf.
  - cbn. rewrite app_nil_r. reflexivity.
  - destruct (step_in_order spill a w Hspill Ha Hsf) as (Hsf1 & _ & Hstep).
    unfold run in *. cbn [fold_left handed_over tracked].
    rewrite <- app_assoc, (IH _ Hsf1).
    rewrite !app_assoc. f_equal. rewrite <- !app_assoc. exact Hstep.
Qed.

(** One step that is not a delivery, taken with the retries used up. *)
Lemma step_exhausted (spill : list Event -> World -> World) (a : Action)
    (w : World) :
  stores_only spill ->
  is_delivery a = false ->
  (maxRetries <= retryCount w)%nat ->
  retryCount (step spill a w) = retryCount w /\
  (length (timers (step spill a w)) <= length (timers w))%nat.
Proof.
  intros Hspill Hnd Hrc.
  assert (Hflush : forall sync v, retryCount (flush sync v) = retryCount v /\
                                  timers (flush sync v) = timers v).
  { intros sync v. unfold flush.
    destruct ((length (queue v) =? 0)%nat || isFlushing v); split; reflexivity. }
  destruct a as [ty md pg|sync|i o|i].
  - unfold step, track.
    destruct (maxQueueSize <=? length (queue w))%nat; cbn.
    + destruct (Hflush false w) as [-> ->]. split; [reflexivity|lia].
    + split; [reflexivity|lia].
  - unfold step. destruct (Hflush sync w) as [-> ->]. split; [reflexivity|lia].
  - unfold step. destruct (inflight w !! i) as [r|]; [|split; [reflexivity|lia]].
    destruct o; [discriminate Hnd|].
    rewrite settle_give_up by (right; exact Hrc).
    destruct (Hspill (eventsToSend r) (set_inflight (delete i (inflight w)) w))
      as (_ & _ & Hr & _ & Ht & _).
    cbn. rewrite Hr, Ht. split; [reflexivity|cbn; lia].
  - unfold step. destruct (timers w !! i) as [t|] eqn:Ht; [|split; [reflexivity|lia]].
    assert (Hlen : (length (delete i (timers w)) <= length (timers w))%nat).
    { rewrite length_delete by (rewrite Ht; eauto). lia. }
    destruct (callback t); unfold run_callback.
    + destruct (Hflush false (set_isFlushing false (set_timers (delete i (timers w)) w)))
        as [-> ->]. split; [reflexivity|exact Hlen].
    + destruct (Hflush false (set_timers (delete i (timers w)) w)) as [-> ->].
      split; [reflexivity|exact Hlen].
Qed.

(** X13. Once the three retries are used up the counter stays where it is
    until a request succeeds: over any sequence of steps without a
    delivery, no retry is scheduled any more, so every batch that fails
    in between is given up at its first failure. *)
Theorem exhausted_counter_sticks (spill : list Event -> World -> World)
    (acts : list Action) (w : World) :
  stores_only spill ->
  Forall (fun a => is_delivery a = false) acts ->
  (maxRetries <= retryCount w)%nat ->
  retryCount (run spill acts w) = retryCount w /\
  (length (timers (run spill acts w)) <= length (timers w))%nat.
Proof.
  intros Hspill Hacts. revert w.
  induction Hacts as [|a acts Ha _ IH]; intros w Hrc; [split; [reflexivity|cbn; lia]|].
  destruct (step_exhausted spill a w Hspill Ha Hrc) as [Hr Ht].
  unfold run in *. cbn [fold_left].
  destruct (IH (step spill a w)) as [Hr' Ht']; [rewrite Hr; exact Hrc|].
  split; [congruence|lia].
Qed.

(** ** The fallback store *)

Lemma step_stores (spill : list Event -> World -> World) (a : Action)
    (w : World) :
  (forall evs v, within_cap v -> within_cap (spill evs v)) ->
  within_cap w -> within_cap (step spill a w).
Proof.
  intros Hspill Hw.
  assert (Hflush : forall sync v, within_cap v -> within_cap (flush sync v)).
  { intros sync v Hv. unfold flush.
    destruct ((length (queue v) =? 0)%nat || isFlushing v); exact Hv. }
  destruct a as [ty md pg|sync|i o|i]; unfold step.
  - unfold track. destruct (maxQueueSize <=? length (queue w))%nat.
    + apply (Hflush false w Hw).
    + exact Hw.
  - apply Hflush, Hw.
  - destruct (inflight w !! i) as [r|]; [|exact Hw].
    unfold settle. destruct o; [exact Hw|].
    match goal with |- context [if ?c then _ else _] => destruct c end;
      [exact Hw|].
    exact (Hspill (eventsToSend r) (set_inflight (delete i (inflight w)) w) Hw).
  - destruct (timers w !! i) as [t|]; [|exact Hw].
    destruct (callback t); unfold run_callback; apply Hflush; exact Hw.
Qed.

Lemma pixeljs_spill_within_cap (evs : list Event) (w : World) :
  within_cap w -> within_cap (PixelJs.spill evs w).
Proof.
  intros [Hl Hg]. unfold PixelJs.spill.
  destruct (localStorage w) as [item|] eqn:Hls; [|split; [rewrite Hls|]; assumption].
  split; [|exact Hg]. cbn. rewrite slice_last_length. lia.
Qed.

Lemma userscript_gm_store_within_cap (evs : list Event) (w : World) :
  within_cap w -> within_cap (UserscriptGM.storeFailedEvents evs w).
Proof.
  intros [Hl Hg]. unfold UserscriptGM.storeFailedEvents.
  destruct (gmStorage w) as [item|] eqn:Hgm.
  - split; [exact Hl|]. cbn. rewrite slice_last_length. lia.
  - destruct (localStorage w) as [item|] eqn:Hls.
    + split; [|cbn; rewrite Hgm; exact Hg]. cbn. rewrite slice_last_length. lia.
    + split; [rewrite Hls|rewrite Hgm]; assumption.
Qed.

(** X14. The fallback store never grows past its cap: if neither store
    holds more than 100 events, neither does after any sequence of
    steps of the tracker, in [pixel.js] as in the userscript with
    Greasemonkey storage. *)
Theorem store_stays_within_cap (acts : list Action) (w : World) :
  within_cap w ->
  within_cap (run PixelJs.spill acts w) /\
  within_cap (run UserscriptGM.storeFailedEvents acts w).
Proof.
  intros Hw. split.
  - revert w Hw. induction acts as [|a acts IH]; intros w Hw; [exact Hw|].
    unfold run in *. cbn [fold_left].
    apply IH, step_stores; [exact pixeljs_spill_within_cap|exact Hw].
  - revert w Hw. induction acts as [|a acts IH]; intros w Hw; [exact Hw|].
    unfold run in *. cbn [fold_left].
    apply IH, step_stores; [exact userscript_gm_store_within_cap|exact Hw].
Qed.

(** X15. What [pixel.js] gives up on one page load comes back on the
    next: as long as the store does not exceed its cap, the first batch
    of the next load is the first page view followed by everything that
    was stored and given up, in that order, and the store is empty
    again. *)
Theorem given_up_events_return (sid : string) (pg : Page) (evs : list Event)
    (w : World) (item : FailedItem) :
  localStorage w = Some item ->
  evs <> [] ->
  (length (read_failed item ++ evs) <= 100)%nat ->
  let next := PixelJs.start sid pg (localStorage (PixelJs.spill evs w)) in
  inflight next =
    [{| eventsToSend :=
          make_event (fresh sid None None) "pageview" None pg
          :: read_failed item ++ evs;
        synchronous := false |}] /\
  queue next = [] /\
  localStorage next = Some None.
Proof.
  intros Hls Hne Hlen next. subst next.
  unfold PixelJs.spill. rewrite Hls. cbn [localStorage set_localStorage].
  rewrite slice_last_short by exact Hlen.
  unfold PixelJs.start, PixelJs.recoverFailedEvents.
  assert (Hpos : (0 <? length (read_failed item ++ evs))%nat = true).
  { apply Nat.ltb_lt. rewrite length_app. destruct evs; [congruence|simpl; lia]. }
  cbn -[Nat.ltb app]. rewrite Hpos. cbn. repeat split; reflexivity.
Qed.

(** ** Clicks *)

(** X16. What a click records of the element's text is its first 50
    UTF-16 code units, the whole text when it is shorter, and [null]
    when the element has no text or an empty one; the event queued for
    the click is the last of the queue, has the type ['click'], the
    session id of the tracker and the metadata built from the element,
    whose [target] is the tag name. *)
Theorem click_text_is_bounded (js_text : list N -> string) (t : Target)
    (pg : Page) (w : World) :
  prop (click_metadata js_text t) "target" = Some (JStr (tagName t)) /\
  (innerText t = None \/ innerText t = Some [] ->
   prop (click_metadata js_text t) "text" = Some JNull) /\
  (forall units,
     innerText t = Some units -> units <> [] ->
     exists cut rest,
       units = cut ++ rest /\
       length cut = Nat.min 50 (length units) /\
       prop (click_metadata js_text t) "text" = Some (JStr (js_text cut))) /\
  exists q ev,
    queue (handleClick js_text t pg w) = q ++ [ev] /\
    event_type ev = "click" /\
    session_id ev = sessionId w /\
    metadata ev = click_metadata js_text t.
Proof.
  assert (Htext : prop (click_metadata js_text t) "text" =
                  Some (match innerText t with
                        | Some units =>
                            if (length units =? 0)%nat then JNull
                            else JStr (js_text (firstn 50 units))
                        | None => JNull
                        end)) by reflexivity.
  split; [reflexivity|]. split; [|split].
  - rewrite Htext. intros [-> | ->]; reflexivity.
  - intros units Hu Hne. rewrite Htext, Hu.
    destruct units as [|u units]; [congruence|]. cbn [length Nat.eqb].
    exists (firstn 50 (u :: units)), (skipn 50 (u :: units)).
    split; [symmetry; apply firstn_skipn|].
    split; [apply length_firstn|reflexivity].
  - unfold handleClick, track.
    destruct (maxQueueSize <=? length (queue w))%nat.
    + eexists _, _. split; [reflexivity|]. repeat split; try reflexivity.
      unfold flush. destruct ((length (queue w) =? 0)%nat || isFlushing w);
        reflexivity.
    + eexists _, _. split; [reflexivity|]. repeat split; reflexivity.
Qed.

(** ** Session ids *)

Import UserscriptLS.

Lemma sess_prefix_not_empty (s : string) : String.eqb ("sess_" +:+ s) "" = false.
Proof. reflexivity. Qed.

(** X17. [getSessionId] of [pixel.js] settles on one id per tab: whatever
    it finds stored, the id it returns is not empty, is the stored one
    afterwards, and is what every later call returns, at any time and
    with any random number. *)
Theorem tab_session_id_is_stable (random36 random36' : string) (now now' : Z)
    (item : option string) :
  let first := TabSession.getSessionId random36 now item in
  first.1 <> "" /\
  first.2 = Some first.1 /\
  TabSession.getSessionId random36' now' first.2 = first.
Proof.
  unfold TabSession.getSessionId.
  destruct item as [sid|]; cbn [fst snd].
  - destruct (String.eqb sid "") eqn:Hsid; cbn [fst snd].
    + rewrite sess_prefix_not_empty. repeat split. discriminate.
    + rewrite Hsid. repeat split. apply String.eqb_neq. exact Hsid.
  - cbn. repeat split. discriminate.
Qed.

(** X18. A session id outlives the call that made or refreshed it: a
    second call of [getOrCreateSession] less than 30 minutes after the
    times the first call read returns the same id, from [localStorage]
    or, when [localStorage] throws, from memory. *)
Theorem session_id_is_stable (r r' : Readings) (w : Window) :
  (now_check r' - now_check r < sessionTimeout)%Z ->
  (now_check r' - now_activity r < sessionTimeout)%Z ->
  (getOrCreateSession r' (getOrCreateSession r w).2).1 =
  (getOrCreateSession r w).1.
Proof.
  intros Hcheck Hact. apply Z.ltb_lt in Hcheck, Hact.
  unfold getOrCreateSession at 2 3.
  destruct (session_store w) as [stored|] eqn:Hst.
  - destruct stored as [[|d]|].
    + unfold getOrCreateSession. cbn. unfold last_activity_or_0. cbn.
      rewrite Hact. reflexivity.
    + destruct (now_check r - last_activity_or_0 d <? sessionTimeout)%Z;
        unfold getOrCreateSession; cbn; unfold last_activity_or_0; cbn.
      * rewrite Hcheck. reflexivity.
      * rewrite Hact. reflexivity.
    + unfold getOrCreateSession. cbn. unfold last_activity_or_0. cbn.
      rewrite Hact. reflexivity.
  - destruct (pixelSessionId w) as [id|] eqn:Hid; unfold getOrCreateSession; cbn.
    + rewrite Hst, Hid. reflexivity.
    + reflexivity.
Qed.

(** X19. [updateSessionActivity] keeps a session alive: after it ran on a
    stored record, a call of [getOrCreateSession] within the next 30
    minutes returns the id of that record, even if the record had
    expired before; and the record keeps its id and creation time. *)
Theorem activity_update_keeps_session (now : Z) (r : Readings) (w : Window)
    (d : SessionData) :
  session_store w = Some (Some (Parsed d)) ->
  (now_check r - now < sessionTimeout)%Z ->
  session_store (updateSessionActivity now w) =
    Some (Some (Parsed {| sd_sessionId := sd_sessionId d; created := created d;
                          lastActivity := Some now |})) /\
  (getOrCreateSession r (updateSessionActivity now w)).1 = sd_sessionId d.
Proof.
  intros Hst Hnow. apply Z.ltb_lt in Hnow.
  unfold updateSessionActivity. rewrite Hst. split; [reflexivity|].
  unfold getOrCreateSession. cbn. unfold last_activity_or_0. cbn.
  rewrite Hnow. reflexivity.
Qed.

Lemma append_cancel_l (s x y : string) : s +:+ x = s +:+ y -> x = y.
Proof.
  induction s as [|c s IH]; cbn; [tauto|]. intros [= H]. apply IH, H.
Qed.

(** X20. The time part tells ids apart: [toString(36)] of a time can be
    read back, so two ids made at different milliseconds from the same
    random number are different. *)
Theorem ids_differ_by_time (random36 : string) (now now' : Z) :
  (0 <= now)%Z -> (0 <= now')%Z -> now <> now' ->
  base36_value (to_base36 now) 0 = Z.to_N now /\
  TabSession.generateId random36 now <> TabSession.generateId random36 now' /\
  generateId {| now_check := now; random36 := random36; now_id := now;
                now_created := now; now_activity := now |} <>
  generateId {| now_check := now'; random36 := random36; now_id := now';
                now_created := now'; now_activity := now' |}.
Proof.
  intros Hn Hn' Hne.
  assert (Hinj : to_base36 now <> to_base36 now').
  { intros Heq. apply (f_equal (fun s => base36_value s 0)) in Heq.
    rewrite !base36_value_to_base36 in Heq by assumption. lia. }
  split; [apply base36_value_to_base36, Hn|].
  split; intros Heq; apply append_cancel_l in Heq; contradiction.
Qed.

(** ** Instances *)

Lemma one_request_at_a_time_witness :
  single_flight (run PixelJs.spill Samples.a_retry Samples.first_view).
Proof.
  apply (one_request_at_a_time PixelJs.spill Samples.a_retry Samples.first_view).
  - exact pixeljs_stores_only.
  - repeat constructor.
  - left. split; reflexivity.
Defined.

Lemma events_leave_in_order_witness :
  handed_over PixelJs.spill Samples.a_retry Samples.first_view
    ++ in_flight (run PixelJs.spill Samples.a_retry Samples.first_view)
    ++ queue (run PixelJs.spill Samples.a_retry Samples.first_view) =
  [make_event Samples.first_view "pageview" None Samples.page;
   make_event Samples.first_view "click" None Samples.page;
   make_event Samples.first_view "scroll" None Samples.page].
Proof.
  assert (Hnf : Forall (fun a => is_fire a = false) Samples.a_retry)
    by repeat constructor.
  assert (Hsf : single_flight Samples.first_view) by (left; split; reflexivity).
  rewrite (events_leave_in_order PixelJs.spill Samples.a_retry Samples.first_view
             pixeljs_stores_only Hnf Hsf).
  reflexivity.
Defined.

Lemma exhausted_counter_sticks_witness :
  retryCount
    (run PixelJs.spill [Fire 0; Settle 0 Failed]
       (run PixelJs.spill Samples.three_failures Samples.first_view)) = 3%nat.
Proof.
  assert (Hnd : Forall (fun a => is_delivery a = false) [Fire 0; Settle 0 Failed])
    by repeat constructor.
  assert (Hrc : (maxRetries <=
                 retryCount (run PixelJs.spill Samples.three_failures
                               Samples.first_view))%nat) by (vm_compute; lia).
  destruct (exhausted_counter_sticks PixelJs.spill [Fire 0; Settle 0 Failed]
              (run PixelJs.spill Samples.three_failures Samples.first_view)
              pixeljs_stores_only Hnd Hrc) as [Hr _].
  rewrite Hr. reflexivity.
Defined.

Lemma store_stays_within_cap_witness :
  within_cap (run PixelJs.spill four_failures Samples.first_view).
Proof.
  assert (Hw : within_cap Samples.first_view) by (split; cbn; lia).
  exact (proj1 (store_stays_within_cap four_failures Samples.first_view Hw)).
Defined.

Lemma given_up_events_return_witness :
  inflight (PixelJs.start "sess_a" Samples.page
              (localStorage (PixelJs.spill [Samples.stale] Samples.first_view))) =
  [{| eventsToSend :=
        [make_event Samples.first_view "pageview" None Samples.page;
         Samples.stale];
      synchronous := false |}].
Proof.
  assert (Hne : [Samples.stale] <> []) by discriminate.
  assert (Hlen : (length (read_failed None ++ [Samples.stale]) <= 100)%nat)
    by (cbn; lia).
  destruct (given_up_events_return "sess_a" Samples.page [Samples.stale]
              Samples.first_view None eq_refl Hne Hlen) as (Hin & _).
  exact Hin.
Defined.

Lemma session_id_is_stable_witness :
  (getOrCreateSession Samples.five_minutes_later
     (getOrCreateSession Samples.usual_random Samples.first_visit).2).1 =
  (getOrCreateSession Samples.usual_random Samples.first_visit).1.
Proof.
  apply session_id_is_stable; reflexivity.
Defined.

Lemma activity_update_keeps_session_witness :
  (getOrCreateSession Samples.five_minutes_later
     (updateSessionActivity 1735689610000 Samples.returning)).1 =
  "sess_4fzyo82mvm59d2r5s".
Proof.
  destruct (activity_update_keeps_session 1735689610000 Samples.five_minutes_later
              Samples.returning Samples.recent eq_refl eq_refl) as [_ Hid].
  exact Hid.
Defined.

Lemma ids_differ_by_time_witness :
  TabSession.generateId "0.4fzyo82mvyr" 1735689610000 <>
  TabSession.generateId "0.4fzyo82mvyr" 1735689610001.
Proof.
  assert (H0 : (0 <= 1735689610000)%Z) by lia.
  assert (H1 : (0 <= 1735689610001)%Z) by lia.
  assert (Hne : 1735689610000%Z <> 1735689610001%Z) by lia.
  exact (proj1 (proj2 (ids_differ_by_time "0.4fzyo82mvyr" 1735689610000
                         1735689610001 H0 H1 Hne))).
Defined.
Lemma click_text_is_bounded_witness :
  Pixel.innerText Samples.accented_button = Some (repeat 233%N 60) /\
  exists cut rest,
    repeat 233%N 60 = cut ++ rest /\
    length cut = 50%nat /\
    prop (click_metadata Samples.latin1 Samples.accented_button) "text" =
      Some (JStr (Samples.latin1 cut)).
Proof.
  split; [reflexivity|].
  destruct (click_text_is_bounded Samples.latin1 Samples.accented_button
              Samples.page Samples.first_view)
    as (_ & _ & Hcut & _).
  apply (Hcut (repeat 233%N 60) eq_refl). discriminate.
Defined.

End TrackerProps.

(* ===================================================================== *)
(** * The query helper: properties *)
(* ===================================================================== *)

Module DbProps.
Import Db.

(** [query] as the source writes it: one call of [pool.query], and on a
    retryable error with [retries < MAX_RETRY_ATTEMPTS] a wait of
    [1000 * (retries + 1)] ms followed by [query(..., retries + 1)]. *)
Lemma query_unfold {R : Type} (p : nat -> Attempt R) (retries : nat) :
  query p retries =
  match p retries with
  | Resolves res => (Returned res, [])
  | Rejects code =>
      if (retries <? MAX_RETRY_ATTEMPTS)%nat && includes code then
        let '(ending, waits) := query p (S retries) in
        (ending, (1000 * (retries + 1))%nat :: waits)
      else (Thrown code, [])
  end.
Proof.
  unfold query. destruct (Nat.ltb_spec retries MAX_RETRY_ATTEMPTS) as [Hlt|Hge].
  - replace (MAX_RETRY_ATTEMPTS - retries)%nat
      with (S (MAX_RETRY_ATTEMPTS - S retries)) by lia.
    cbn [query_loop]. destruct (p retries); reflexivity.
  - replace (MAX_RETRY_ATTEMPTS - retries)%nat with 0%nat by lia.
    cbn [query_loop]. destruct (p retries); reflexivity.
Qed.

Lemma retried_0 {R : Type} (p : nat -> Attempt R) : retried p 0.
Proof. intros j Hj. lia. Qed.

Lemma retried_S {R : Type} (p : nat -> Attempt R) (k : nat) (code : option string) :
  retried p k -> p k = Rejects code -> includes code = true -> retried p (S k).
Proof.
  intros Hk Hp Hc j Hj. destruct (Nat.eq_dec j k) as [->|Hne].
  - exists code. split; assumption.
  - apply Hk. lia.
Qed.

(** X21. [query] stops at the first call of [pool.query] that resolves
    or that is rejected with a code outside [retryableCodes], and at the
    fourth call at the latest: the calls before that one were rejected
    with retryable codes, call [j + 1] was made [1000 * j] ms after the
    rejection of call [j], and the result or the error of the last call
    is what [query] returns or throws. *)
Theorem query_stops_at_first_final_call {R : Type} (p : nat -> Attempt R) :
  exists k,
    (k <= 3)%nat /\
    retried p k /\
    (query p 0).2 = waits_before k /\
    match p k with
    | Resolves res => (query p 0).1 = Returned res
    | Rejects code =>
        (query p 0).1 = Thrown code /\ (k = 3%nat \/ includes code = false)
    end.
Proof.
  unfold query, MAX_RETRY_ATTEMPTS. cbn [Nat.sub query_loop].
  pose proof (retried_0 p) as H0.
  destruct (p 0%nat) as [r0|c0] eqn:Hp0.
  { exists 0%nat. rewrite Hp0. repeat split; [lia|exact H0]. }
  destruct (includes c0) eqn:Hc0.
  2:{ exists 0%nat. rewrite Hp0. repeat split; [lia|exact H0|right; exact Hc0]. }
  pose proof (retried_S p 0 c0 H0 Hp0 Hc0) as H1.
  destruct (p 1%nat) as [r1|c1] eqn:Hp1.
  { exists 1%nat. rewrite Hp1. repeat split; [lia|exact H1]. }
  destruct (includes c1) eqn:Hc1.
  2:{ exists 1%nat. rewrite Hp1. repeat split; [lia|exact H1|right; exact Hc1]. }
  pose proof (retried_S p 1 c1 H1 Hp1 Hc1) as H2.
  destruct (p 2%nat) as [r2|c2] eqn:Hp2.
  { exists 2%nat. rewrite Hp2. repeat split; [lia|exact H2]. }
  destruct (includes c2) eqn:Hc2.
  2:{ exists 2%nat. rewrite Hp2. repeat split; [lia|exact H2|right; exact Hc2]. }
  pose proof (retried_S p 2 c2 H2 Hp2 Hc2) as H3.
  exists 3%nat.
  destruct (p 3%nat) as [r3|c3] eqn:Hp3; repeat split; try lia; try exact H3.
Qed.

(** X22. [query] is bounded, whatever the pool answers: it retries at
    most three times and waits at most 6000 ms in all. *)
Theorem query_waits_are_bounded {R : Type} (p : nat -> Attempt R) :
  (length (query p 0).2 <= 3)%nat /\
  (list_sum (query p 0).2 <= 1000 + 2000 + 3000)%nat.
Proof.
  unfold query, MAX_RETRY_ATTEMPTS. cbn [Nat.sub query_loop].
  destruct (p 0%nat) as [|c0]; [cbn; lia|]. destruct (includes c0); [|cbn; lia].
  destruct (p 1%nat) as [|c1]; [cbn; lia|]. destruct (includes c1); [|cbn; lia].
  destruct (p 2%nat) as [|c2]; [cbn; lia|]. destruct (includes c2); [|cbn; lia].
  destruct (p 3%nat); cbn; lia.
Qed.

End DbProps.
